(** * Mezzofy SME content crawler: a shallow embedding of [main.py]

    The development follows the source file top to bottom: Python strings and
    the string methods the crawler calls, the part of [urllib.parse.urlparse]
    that [is_valid_mezzofy_url] reads, [fetch_page], [extract_info] and the
    [crawl] endpoint with its frontier loop.  External collaborators
    (the network, the HTML parser, the document store, Unicode tables) are
    fields of two interfaces, [PyLib] and [Net]. *)

From Stdlib Require Import ZArith NArith List String Ascii Sorting.Sorted Permutation Lia.
From stdpp Require Import base decidable list gmap sets.

Local Open Scope Z_scope.
Local Open Scope list_scope.

(** ** Python strings

    A Python [str] is a sequence of Unicode code points; [s[:n]], [len(s)],
    [in], [startswith] and comparison all work on code points. *)

Abbreviation codepoint := N (only parsing).
Abbreviation str := (list N) (only parsing).

(** [py "..."] is the [str] literal with the given ASCII text. *)
Definition py (s : string) : str :=
  List.map N_of_ascii (list_ascii_of_string s).

Module Str.

(** [sub in s] for a one-character [sub]. *)
Definition contains_char (c : codepoint) (s : str) : bool :=
  existsb (N.eqb c) s.

(** [s.startswith(prefix)] *)
Fixpoint startswith (pre s : str) : bool :=
  match pre, s with
  | [], _ => true
  | _ :: _, [] => false
  | a :: pre', b :: s' => N.eqb a b && startswith pre' s'
  end.

(** [s.endswith(suffix)] *)
Definition endswith (suf s : str) : bool :=
  startswith (rev suf) (rev s).

(** [sub in s]: [sub] occurs as a contiguous run of [s]. *)
Fixpoint contains (sub s : str) : bool :=
  startswith sub s ||
  match s with
  | [] => false
  | _ :: s' => contains sub s'
  end.

(** [s.find(c)] for a one-character [c]: index of the first occurrence. *)
Fixpoint find (c : codepoint) (s : str) : option nat :=
  match s with
  | [] => None
  | a :: s' => if N.eqb a c then Some O else option_map S (find c s')
  end.

(** [s.find(c, start)] *)
Definition find_from (c : codepoint) (s : str) (start : nat) : option nat :=
  option_map (Nat.add start) (find c (skipn start s)).

(** [s[i:j]] for [0 <= i], [0 <= j]. *)
Definition slice (s : str) (i j : nat) : str :=
  firstn (j - i) (skipn i s).

(** [s.replace(c, "")] for a one-character [c]. *)
Definition remove_char (c : codepoint) (s : str) : str :=
  List.filter (fun a => negb (N.eqb a c)) s.

(** [s.lstrip(chars)] with the predicate saying which characters go. *)
Fixpoint lstrip_by (drop : codepoint -> bool) (s : str) : str :=
  match s with
  | [] => []
  | a :: s' => if drop a then lstrip_by drop s' else s
  end.

Definition rstrip_by (drop : codepoint -> bool) (s : str) : str :=
  rev (lstrip_by drop (rev s)).

(** [str.isspace] on one character: CPython's [_PyUnicode_IsWhitespace]. *)
Definition isspace (c : codepoint) : bool :=
  ((9 <=? c) && (c <=? 13) || (28 <=? c) && (c <=? 32)
   || (c =? 133) || (c =? 160) || (c =? 5760)
   || (8192 <=? c) && (c <=? 8202)
   || (c =? 8232) || (c =? 8233) || (c =? 8239) || (c =? 8287)
   || (c =? 12288))%N.

(** [s.strip()] *)
Definition strip (s : str) : str :=
  rstrip_by isspace (lstrip_by isspace s).

(** [c.isascii() and c.isalpha()] *)
Definition is_ascii_alpha (c : codepoint) : bool :=
  ((65 <=? c) && (c <=? 90) || (97 <=? c) && (c <=? 122))%N.

Definition is_ascii_digit (c : codepoint) : bool :=
  ((48 <=? c) && (c <=? 57))%N.

(** [s.isascii()] *)
Definition isascii (s : str) : bool :=
  forallb (fun c => (c <? 128)%N) s.

(** [s.lower()] on a string of ASCII characters. *)
Definition lower_ascii (s : str) : str :=
  List.map (fun c => if ((65 <=? c) && (c <=? 90))%N then (c + 32)%N else c) s.

(** [a < b] on strings: lexicographic on code points. *)
Fixpoint ltb (a b : str) : bool :=
  match a, b with
  | _, [] => false
  | [], _ :: _ => true
  | x :: a', y :: b' => (x <? y)%N || (x =? y)%N && ltb a' b'
  end.

(** [a <= b] on strings, as a sort that only asks [<] sees it: not [b < a]. *)
Definition le (a b : str) : Prop := ltb b a = false.

(** Truthiness of a string: non-empty. *)
Definition truthy (s : str) : bool :=
  match s with [] => false | _ => true end.

End Str.

(** [sorted(xs)] on strings.  Python's sort is stable and compares with [<]
    only; an insertion sort that keeps equal elements in their order gives
    the same list. *)
Fixpoint sorted_insert (x : str) (l : list str) : list str :=
  match l with
  | [] => [x]
  | y :: l' => if Str.ltb y x then y :: sorted_insert x l' else x :: y :: l'
  end.

Definition sorted (l : list str) : list str :=
  fold_right sorted_insert [] l.

(** ** Collaborators

    [Response] is what the crawler reads of a [requests.Response]; [Soup] is
    what it reads of a parsed [BeautifulSoup] document. *)

Record Response := mkResponse {
  status_code : Z;
  resp_text : str
}.

Record Soup := mkSoup {
  (** [soup.title] is [None] when there is no title element; otherwise
      [soup.title.string] is the single string child, or [None]. *)
  soup_title : option (option str);
  (** [soup.find("meta", attrs={"name": "description"})] and, inside, the
      value of [.get("content", None)]. *)
  soup_meta_description : option (option str);
  (** [soup.find("meta", attrs={"property": "og:image"})], likewise. *)
  soup_og_image : option (option str);
  (** [soup.find("p")], given by its [get_text()]. *)
  soup_first_p : option str;
  (** [soup.get_text(" ")] *)
  soup_text : str;
  (** the [href] values of [soup.find_all("a", href=True)], in document order *)
  soup_anchors : list str
}.

(** [schemas.Page] without the timestamp fields, which the crawler never sets. *)
Record Page := mkPage {
  page_url : str;
  page_title : option str;
  page_description : option str;
  page_keywords_matched : list str;
  page_snippet : option str;
  page_source : option str;
  page_image : option str
}.

(** Pure library functions.  A result [None] stands for a raised exception. *)
Class PyLib := {
  (** [str.lower] with the full Unicode case mapping *)
  unicode_lower : str -> str;
  (** [unicodedata.normalize("NFKC", s)] *)
  unicode_nfkc : str -> str;
  (** [urllib.parse._check_bracketed_netloc]: [false] when it raises
      [ValueError]; called only on a netloc holding both brackets. *)
  check_bracketed_netloc : str -> bool;
  (** [urllib.parse.urljoin(base, url)] *)
  urljoin : str -> str -> option str;
  (** pydantic's validation of the [HttpUrl] field of [Page] *)
  HttpUrl_validates : str -> bool;
  (** the text of a validated [HttpUrl]: pydantic keeps the URL in a
      normalised form, which need not be the string it was given (an empty
      path is written [/]) *)
  HttpUrl_text : str -> str;
  (** [BeautifulSoup(text, "lxml")] *)
  BeautifulSoup_lxml : str -> option Soup
}.

(** The outside world: the network and the document store. *)
Class Net := {
  World : Type;
  (** [requests.get(url, timeout=10)]; [None] is a timeout or transport error *)
  requests_get : str -> World -> option Response * World;
  (** [create_document("page", page)]; [false] is a raised exception *)
  create_document : Page -> World -> bool * World
}.

(** ** Constants *)

Definition APP_NAME : str := py "Mezzofy SME Content Crawler".
Definition BASE_DOMAIN : str := py "https://www.mezzofy.com".
Definition KEYWORDS : list str :=
  List.map py
    ["sme"; "smb"; "pricing"; "features"; "merchant"; "e-commerce"; "ecommerce";
     "pos"; "coupon"; "loyalty"; "reward"; "subscription"; "payment"; "api"; "docs"]%string.

(** ** [urllib.parse.urlparse]: scheme and netloc

    The model follows CPython's [urlsplit] (3.11.4 and later, where leading
    C0 control characters and spaces are stripped and bracketed hosts are
    checked) up to the two fields that [is_valid_mezzofy_url] reads.  [urlparse]
    only splits the path further. *)

Module UrlParse.

(** [_WHATWG_C0_CONTROL_OR_SPACE]: code points 0 to 32. *)
Definition c0_control_or_space (c : codepoint) : bool := (c <=? 32)%N.

(** [_UNSAFE_URL_BYTES_TO_REMOVE = ['\t', '\r', '\n']] *)
Definition UNSAFE_URL_BYTES_TO_REMOVE : list codepoint := [9; 13; 10]%N.

(** [scheme_chars]: ASCII letters, digits and [+-.] *)
Definition scheme_char (c : codepoint) : bool :=
  Str.is_ascii_alpha c || Str.is_ascii_digit c
  || (c =? 43)%N || (c =? 45)%N || (c =? 46)%N.

Definition _splitnetloc (url : str) (start : nat) : str * str :=
  let delim :=
    fold_left
      (fun delim c =>
         match Str.find_from c url start with
         | Some wdelim => Nat.min delim wdelim
         | None => delim
         end)
      (py "/?#") (length url) in
  (Str.slice url start delim, skipn delim url).

Record ParseResult := mkParseResult {
  scheme : str;
  netloc : str
}.

Section WithLib.
Context {lib : PyLib}.

(** [_checknetloc]: [false] when it raises [ValueError]. *)
Definition _checknetloc (netloc : str) : bool :=
  if negb (Str.truthy netloc) || Str.isascii netloc then true
  else
    let n := Str.remove_char 64 netloc in
    let n := Str.remove_char 58 n in
    let n := Str.remove_char 35 n in
    let n := Str.remove_char 63 n in
    let netloc2 := unicode_nfkc n in
    if bool_decide (n = netloc2) then true
    else negb (existsb (fun c => Str.contains_char c netloc2) (py "/?#@:")).

(** [urlparse(url)]; [None] when it raises [ValueError]. *)
Definition urlparse (url : str) : option ParseResult :=
  let url := Str.lstrip_by c0_control_or_space url in
  let url := fold_left (fun u b => Str.remove_char b u) UNSAFE_URL_BYTES_TO_REMOVE url in
  let '(scheme, url) :=
    match Str.find 58 url with
    | Some (S i' as i) =>
        if match url with c :: _ => Str.is_ascii_alpha c | [] => false end
           && forallb scheme_char (firstn i url)
        then (Str.lower_ascii (firstn i url), skipn (S i) url)
        else ([], url)
    | _ => ([], url)
    end in
  if bool_decide (firstn 2 url = py "//") then
    let '(netloc, url) := _splitnetloc url 2 in
    let open := Str.contains_char 91 netloc in
    let close := Str.contains_char 93 netloc in
    if open && negb close || close && negb open then None
    else if open && close && negb (check_bracketed_netloc netloc) then None
    else if negb (_checknetloc netloc) then None
    else Some (mkParseResult scheme netloc)
  else Some (mkParseResult scheme []).

End WithLib.

End UrlParse.

(** ** The request model and the crawl's observable outcome *)

Record CrawlRequest := mkCrawlRequest {
  start_url : option str;
  max_pages : Z
}.

(** What a call of the endpoint ends in: the [HTTPException] it raises, an
    exception nothing catches ([ValueError] out of [urljoin], pydantic's
    [ValidationError] out of [Page(...)]), or the returned counts. *)
Inductive Outcome :=
| HTTPException (code : Z) (detail : str)
| Unhandled
| Return (n_visited n_saved : Z).

(** Calls that leave the process, in the order they are made. *)
Inductive Event :=
| EvFetch (url : str)
| EvStore (pg : Page) (ok : bool).

Definition fetched_urls (tr : list Event) : list str :=
  flat_map (fun e => match e with EvFetch u => [u] | EvStore _ _ => [] end) tr.

Definition stored_pages (tr : list Event) : list Page :=
  flat_map (fun e => match e with EvFetch _ => [] | EvStore pg _ => [pg] end) tr.

(** The pages whose [create_document] call returned. *)
Definition saved_pages (tr : list Event) : list Page :=
  flat_map (fun e => match e with EvStore pg true => [pg] | _ => [] end) tr.

(** How a block of statements ends: it runs to its end, or an exception
    leaves it. *)
Inductive Completion := Normal | Raised.

Section Crawler.
Context {lib : PyLib} {net : Net}.

(** ** [is_valid_mezzofy_url] *)

Definition is_valid_mezzofy_url (url : str) : bool :=
  match UrlParse.urlparse url with
  | Some parsed =>
      Str.endswith (py "mezzofy.com") (UrlParse.netloc parsed)
      && bool_decide (UrlParse.scheme parsed ∈ [py "http"; py "https"])
  | None => false
  end.

(** ** [fetch_page] *)

Definition fetch_page (url : str) (w : World) : option Soup * World :=
  match requests_get url w with
  | (Some resp, w') =>
      if negb (status_code resp =? 200) then (None, w')
      else (BeautifulSoup_lxml (resp_text resp), w')
  | (None, w') => (None, w')
  end.

(** ** [extract_info] *)

Definition extract_title (soup : Soup) : option str :=
  match soup_title soup with
  | Some (Some s) => if Str.truthy s then Some (Str.strip s) else None
  | _ => None
  end.

Definition extract_description (soup : Soup) : option str :=
  match soup_meta_description soup with
  | Some content => content
  | None => None
  end.

Definition extract_image (soup : Soup) : option str :=
  match soup_og_image soup with
  | Some content => content
  | None => None
  end.

Definition extract_snippet (soup : Soup) : option str :=
  match soup_first_p soup with
  | Some text => if Str.truthy text then Some (firstn 240 (Str.strip text)) else None
  | None => None
  end.

Definition extract_matched (soup : Soup) : list str :=
  let text := unicode_lower (soup_text soup) in
  sorted (elements (list_to_set (List.filter (fun kw => Str.contains kw text) KEYWORDS) : gset str)).

(** [None] when [Page(...)] rejects the url; the record's [url] is the
    text of the validated [HttpUrl]. *)
Definition extract_info (url : str) (soup : Soup) : option Page :=
  let title := extract_title soup in
  let description := extract_description soup in
  let image := extract_image soup in
  let snippet := extract_snippet soup in
  let matched := extract_matched soup in
  if HttpUrl_validates url then
    Some {| page_url := HttpUrl_text url; page_title := title; page_description := description;
            page_keywords_matched := matched; page_snippet := snippet;
            page_source := Some (py "mezzofy"); page_image := image |}
  else None.

(** ** [crawl] *)

Record LoopState := mkLoopState {
  to_visit : list str;
  visited : gset str;
  saved : Z;
  world : World;
  trace : list Event
}.

(** Lines 101-107: the guarded [create_document] call. *)
Definition save_page (page_model : Page) (saved : Z) (w : World) (tr : list Event)
  : Z * World * list Event :=
  if match page_keywords_matched page_model with [] => false | _ => true end then
    match create_document page_model w with
    | (true, w') => (saved + 1, w', tr ++ [EvStore page_model true])
    | (false, w') => (saved, w', tr ++ [EvStore page_model false])
    end
  else (saved, w, tr).

(** Lines 115-116. *)
Definition enqueue_link (visited : gset str) (to_visit : list str) (absolute : str) : list str :=
  if is_valid_mezzofy_url absolute
     && negb (bool_decide (absolute ∈ visited))
     && negb (bool_decide (absolute ∈ to_visit))
  then to_visit ++ [absolute]
  else to_visit.

(** Lines 110-116: the [for] loop over the anchors. *)
Fixpoint discover_links (current : str) (hrefs : list str) (visited : gset str)
    (to_visit : list str) : Completion * list str :=
  match hrefs with
  | [] => (Normal, to_visit)
  | a :: hrefs' =>
      let href := Str.strip a in
      if Str.startswith (py "#") href || Str.startswith (py "mailto:") href then
        discover_links current hrefs' visited to_visit
      else
        match urljoin current href with
        | None => (Raised, to_visit)
        | Some absolute =>
            discover_links current hrefs' visited (enqueue_link visited to_visit absolute)
        end
  end.

(** Lines 90-116: one pass through the body of the [while] loop. *)
Definition crawl_body (st : LoopState) : Completion * LoopState :=
  match to_visit st with
  | [] => (Raised, st)
  | current :: rest =>
      if bool_decide (current ∈ visited st) then
        (Normal, mkLoopState rest (visited st) (saved st) (world st) (trace st))
      else
        let visited' := {[current]} ∪ visited st in
        let '(soup, w1) := fetch_page current (world st) in
        let tr1 := trace st ++ [EvFetch current] in
        match soup with
        | None => (Normal, mkLoopState rest visited' (saved st) w1 tr1)
        | Some soup =>
            match extract_info current soup with
            | None => (Raised, mkLoopState rest visited' (saved st) w1 tr1)
            | Some page_model =>
                let '(saved', w2, tr2) := save_page page_model (saved st) w1 tr1 in
                let '(c, to_visit') := discover_links current (soup_anchors soup) visited' rest in
                (c, mkLoopState to_visit' visited' saved' w2 tr2)
            end
        end
  end.

(** Line 89: the condition of the [while] loop. *)
Definition loop_cond (max_pages : Z) (st : LoopState) : bool :=
  match to_visit st with [] => false | _ => true end
  && (Z.of_nat (size (visited st)) <? max_pages).

(** The [while] loop, with [fuel] bounding the number of passes; [None]
    means the fuel ran out. *)
Fixpoint crawl_loop (max_pages : Z) (fuel : nat) (st : LoopState)
  : option (Completion * LoopState) :=
  if loop_cond max_pages st then
    match fuel with
    | O => None
    | S fuel' =>
        match crawl_body st with
        | (Normal, st') => crawl_loop max_pages fuel' st'
        | (Raised, st') => Some (Raised, st')
        end
    end
  else Some (Normal, st).

(** Line 81: [req.start_url or BASE_DOMAIN]. *)
Definition effective_start_url (req : CrawlRequest) : str :=
  match start_url req with
  | Some s => if Str.truthy s then s else BASE_DOMAIN
  | None => BASE_DOMAIN
  end.

(** Lines 85-87. *)
Definition init_state (start_url : str) (w : World) : LoopState :=
  mkLoopState [start_url] ∅ 0 w [].

Definition crawl_with (fuel : nat) (req : CrawlRequest) (w : World)
  : option (Outcome * World * list Event) :=
  let start_url := effective_start_url req in
  if negb (is_valid_mezzofy_url start_url) then
    Some (HTTPException 400 (py "start_url must be mezzofy.com"), w, [])
  else
    match crawl_loop (max_pages req) fuel (init_state start_url w) with
    | None => None
    | Some (Normal, st) =>
        Some (Return (Z.of_nat (size (visited st))) (saved st), world st, trace st)
    | Some (Raised, st) => Some (Unhandled, world st, trace st)
    end.

(** Each pass that reaches line 93 adds one URL to [visited], so
    [max_pages] passes are enough (see [crawl_loop_fuel_enough]). *)
Definition crawl (req : CrawlRequest) (w : World) : option (Outcome * World * list Event) :=
  crawl_with (Z.to_nat (max_pages req)) req w.

(** The states the loop goes through: [reachable max_pages st0 c st] says
    that [st] is the state after some number of passes started in [st0], the
    last of which completed as [c]; a pass starts only where the previous one
    completed normally and the loop condition holds. *)
Inductive reachable (max_pages : Z) (st0 : LoopState) : Completion -> LoopState -> Prop :=
| reachable_init : reachable max_pages st0 Normal st0
| reachable_pass st c st' :
    reachable max_pages st0 Normal st ->
    loop_cond max_pages st = true ->
    crawl_body st = (c, st') ->
    reachable max_pages st0 c st'.

(** *** Invariants of the loop *)

(** The frontier holds no URL twice and no visited URL. *)
Definition frontier_ok (vis : gset str) (q : list str) : Prop :=
  NoDup q /\ forall u, u ∈ q -> u ∉ vis.

(** What the loop maintains about its counters and its calls. *)
Record crawl_inv (st : LoopState) : Prop := mk_crawl_inv {
  inv_frontier : frontier_ok (visited st) (to_visit st);
  inv_fetched_nodup : NoDup (fetched_urls (trace st));
  inv_fetched_visited : forall u, u ∈ fetched_urls (trace st) <-> u ∈ visited st;
  inv_saved_count : saved st = Z.of_nat (length (saved_pages (trace st)));
  inv_saved_le : saved st <= Z.of_nat (size (visited st));
  inv_stored_relevant :
    Forall (fun pg => page_keywords_matched pg <> []) (stored_pages (trace st))
}.

End Crawler.

(** *** Further invariants of the loop: scope and storage *)

Section CrawlerScope.
Context {lib : PyLib} {net : Net}.

(** Every URL waiting in the frontier and every URL fetched so far passed
    the validator; the stored records are those of some of the fetched URLs,
    one record for each, in the order of the fetches, each carrying the
    [HttpUrl] text of its URL. *)
Record scope_inv (st : LoopState) : Prop := mk_scope_inv {
  sinv_frontier_valid : forall u, u ∈ to_visit st -> is_valid_mezzofy_url u = true;
  sinv_fetched_valid :
    forall u, u ∈ fetched_urls (trace st) -> is_valid_mezzofy_url u = true;
  sinv_stored_from :
    exists us,
      sublist us (fetched_urls (trace st))
      /\ List.map page_url (stored_pages (trace st)) = List.map HttpUrl_text us
}.

(** The order in which URLs were discovered: those fetched, then those
    still waiting. *)
Definition discovery_order (st : LoopState) : list str :=
  fetched_urls (trace st) ++ to_visit st.

(** The [href]s the [for] loop resolves: stripped, and neither a fragment
    nor a [mailto:] link (lines 111-113). *)
Definition resolvable (a : str) : bool :=
  negb (Str.startswith (py "#") (Str.strip a)
        || Str.startswith (py "mailto:") (Str.strip a)).

End CrawlerScope.

(** ** Plainly written URLs

    The shape of an everyday absolute URL, [scheme://netloc] followed by
    nothing or by a path, query or fragment: the scheme starts with an ASCII
    letter and is made of scheme characters; the netloc is ASCII and holds
    no tab, line break, bracket or delimiter; what follows starts with [/],
    [?] or [#]. *)

Definition plain_scheme (s : str) : bool :=
  match s with c :: _ => Str.is_ascii_alpha c | [] => false end
  && forallb UrlParse.scheme_char s.

Definition plain_netloc (nl : str) : bool :=
  forallb (fun c => (c <? 128)%N
                    && negb (existsb (N.eqb c) [9; 10; 13; 35; 47; 63; 91; 93]%N)) nl.

Definition plain_tail (p : str) : bool :=
  match p with
  | [] => true
  | c :: _ => existsb (N.eqb c) [47; 63; 35]%N
  end.

(** ** [list_pages]

    The document store is the [database] module; its values are what MongoDB
    hands back (strings, numbers, [ObjectId]s, datetimes, lists). *)

(** The [filter_dict] given to [get_documents]: [{}], or
    [{"$or": [{field: {"$regex": q, "$options": opts}}, ...]}] as a list of
    [(field, (q, opts))]. *)
Inductive MongoFilter :=
| FilterAll
| FilterOr (clauses : list (str * (str * str))).

Class DocStore := {
  Value : Type;
  (** a Python [str] as a document value *)
  value_of_str : str -> Value;
  (** [hasattr(v, "isoformat")] *)
  has_isoformat : Value -> bool;
  (** [v.isoformat()] *)
  isoformat : Value -> str;
  (** [str(v)] *)
  py_str : Value -> str;
  (** a [str] has no [isoformat] attribute *)
  str_has_no_isoformat : forall s, has_isoformat (value_of_str s) = false;
  (** [get_documents(collection, filter_dict=..., limit=...)]; [None] when it
      raises *)
  get_documents : str -> MongoFilter -> Z -> option (list (gmap str Value))
}.

Section Pages.
Context {store : DocStore}.

(** Lines 141-143: the loop over the items of the copied dict. *)
Definition isoformat_values (d : gmap str Value) : gmap str Value :=
  (fun v => if has_isoformat v then value_of_str (isoformat v) else v) <$> d.

(** Lines 137-144, the inner function [norm]. *)
Definition norm (d : gmap str Value) : gmap str Value :=
  let d :=
    match d !! py "_id" with
    | Some v => <[py "id" := value_of_str (py_str v)]> (delete (py "_id") d)
    | None => d
    end in
  isoformat_values d.

(** Lines 123-132. *)
Definition list_pages_filter (q : option str) : MongoFilter :=
  match q with
  | Some q' =>
      if Str.truthy q' then
        let regex := (q', py "i") in
        FilterOr [(py "title", regex); (py "description", regex);
                  (py "snippet", regex); (py "keywords_matched", regex)]
      else FilterAll
  | None => FilterAll
  end.

(** Lines 134-148. *)
Definition list_pages (q : option str) (limit : Z) : list (gmap str Value) :=
  match get_documents (py "page") (list_pages_filter q) limit with
  | Some docs => List.map norm docs
  | None => []
  end.

End Pages.

(** A store for running [list_pages]: values are strings, object ids and
    datetimes (given by their ISO text); it holds one page. *)
Module StoreFixture.

Inductive value :=
| VStr (s : str)
| VObjectId (hex : str)
| VDatetime (iso : str).

Definition stored_doc : gmap str value :=
  <[py "_id" := VObjectId (py "65a1")]>
    (<[py "id" := VStr (py "stale")]>
       (<[py "title" := VStr (py "Mezzofy Pricing")]>
          (<[py "created_at" := VDatetime (py "2024-01-01T00:00:00")]> ∅))).

Definition store : DocStore :=
  {| Value := value;
     value_of_str := VStr;
     has_isoformat := fun v => match v with VDatetime _ => true | _ => false end;
     isoformat := fun v => match v with VDatetime iso => iso | _ => [] end;
     py_str := fun v => match v with VStr s => s | VObjectId h => h | VDatetime iso => iso end;
     str_has_no_isoformat := fun _ => eq_refl;
     get_documents := fun coll _ _ =>
       if bool_decide (coll = py "page") then Some [stored_doc] else None |}.

(** The same values, with the database down. *)
Definition down : DocStore :=
  {| Value := value;
     value_of_str := VStr;
     has_isoformat := fun v => match v with VDatetime _ => true | _ => false end;
     isoformat := fun v => match v with VDatetime iso => iso | _ => [] end;
     py_str := fun v => match v with VStr s => s | VObjectId h => h | VDatetime iso => iso end;
     str_has_no_isoformat := fun _ => eq_refl;
     get_documents := fun _ _ _ => None |}.

End StoreFixture.

(** ** A test bed

    An ASCII-only instance of the collaborators, for running the model on
    concrete inputs: on ASCII text [str.lower] is the ASCII lower-casing and
    NFKC normalisation is the identity; no bracketed host is accepted; every
    [href] on the test pages is an absolute URL, which [urljoin] returns as it
    is; a validated URL without a path gets the path [/]. *)

Module Fixture.

Definition seed_soup : Soup :=
  {| soup_title := Some (Some (py "Mezzofy Pricing"));
     soup_meta_description := Some (Some (py "Coupons for merchants"));
     soup_og_image := None;
     soup_first_p := Some (py "  Great pricing and coupon deals  ");
     soup_text := py "Mezzofy Pricing Great PRICING and Coupon deals";
     soup_anchors := [py "https://www.mezzofy.com/features"; py "https://external.com"; py "#top"] |}.

(** A page whose title element holds three spaces and which has no paragraph. *)
Definition blank_title_soup : Soup :=
  {| soup_title := Some (Some (py "   "));
     soup_meta_description := None;
     soup_og_image := None;
     soup_first_p := None;
     soup_text := py "   ";
     soup_anchors := [] |}.

Definition lib : PyLib :=
  {| unicode_lower := Str.lower_ascii;
     unicode_nfkc := fun s => s;
     check_bracketed_netloc := fun _ => false;
     urljoin := fun _ href => Some href;
     HttpUrl_validates := fun _ => true;
     HttpUrl_text := fun url =>
       if bool_decide (url = BASE_DOMAIN) then BASE_DOMAIN ++ py "/" else url;
     BeautifulSoup_lxml := fun text =>
       if bool_decide (text = py "seed") then Some seed_soup else None |}.

(** The seed answers 200; every other request times out; the store accepts. *)
Definition net : Net :=
  {| World := unit;
     requests_get := fun url w =>
       if bool_decide (url = BASE_DOMAIN) then (Some (mkResponse 200 (py "seed")), w)
       else (None, w);
     create_document := fun _ w => (true, w) |}.

(** Every request times out. *)
Definition offline : Net :=
  {| World := unit;
     requests_get := fun _ w => (None, w);
     create_document := fun _ w => (false, w) |}.

End Fixture.

(** A test bed where things go wrong: the page holds a link on which
    [urljoin] raises, and [Page(...)] rejects one URL that the validator
    accepts. *)
Module BrittleFixture.

Definition bad_soup : Soup :=
  {| soup_title := Some (Some (py "Loyalty"));
     soup_meta_description := None;
     soup_og_image := None;
     soup_first_p := None;
     soup_text := py "Loyalty and reward";
     soup_anchors := [py "https://www.mezzofy.com/a"; py "//["; py "https://www.mezzofy.com/b"] |}.

Definition rejected_url : str := py "http://x mezzofy.com".

Definition lib : PyLib :=
  {| unicode_lower := Str.lower_ascii;
     unicode_nfkc := fun s => s;
     check_bracketed_netloc := fun _ => false;
     urljoin := fun _ href => if bool_decide (href = py "//[") then None else Some href;
     HttpUrl_validates := fun url => negb (bool_decide (url = rejected_url));
     HttpUrl_text := fun url =>
       if bool_decide (url = BASE_DOMAIN) then BASE_DOMAIN ++ py "/" else url;
     BeautifulSoup_lxml := fun _ => Some bad_soup |}.

(** Every request answers 200; the store accepts. *)
Definition net : Net :=
  {| World := unit;
     requests_get := fun _ w => (Some (mkResponse 200 []), w);
     create_document := fun _ w => (true, w) |}.

End BrittleFixture.

(** The library of [BrittleFixture] ([urljoin] raises on one [href],
    [Page(...)] rejects one URL) in front of the pages of [Fixture], which
    hold neither. *)
Module CarefulFixture.

Definition lib : PyLib :=
  {| unicode_lower := Str.lower_ascii;
     unicode_nfkc := fun s => s;
     check_bracketed_netloc := fun _ => false;
     urljoin := fun _ href => if bool_decide (href = py "//[") then None else Some href;
     HttpUrl_validates := fun url => negb (bool_decide (url = BrittleFixture.rejected_url));
     HttpUrl_text := fun url =>
       if bool_decide (url = BASE_DOMAIN) then BASE_DOMAIN ++ py "/" else url;
     BeautifulSoup_lxml := fun text =>
       if bool_decide (text = py "seed") then Some Fixture.seed_soup else None |}.

End CarefulFixture.

(** A site whose root answers under [https://www.mezzofy.com] and under
    [https://www.mezzofy.com/], and links to the latter. *)
Module SlashFixture.

Definition root_soup : Soup :=
  {| soup_title := Some (Some (py "Pricing"));
     soup_meta_description := None;
     soup_og_image := None;
     soup_first_p := None;
     soup_text := py "Pricing";
     soup_anchors := [py "https://www.mezzofy.com/"] |}.

Definition lib : PyLib :=
  {| unicode_lower := Str.lower_ascii;
     unicode_nfkc := fun s => s;
     check_bracketed_netloc := fun _ => false;
     urljoin := fun _ href => Some href;
     HttpUrl_validates := fun _ => true;
     HttpUrl_text := fun url =>
       if bool_decide (url = BASE_DOMAIN) then BASE_DOMAIN ++ py "/" else url;
     BeautifulSoup_lxml := fun _ => Some root_soup |}.

Definition net : Net :=
  {| World := unit;
     requests_get := fun url w =>
       if bool_decide (url = BASE_DOMAIN) || bool_decide (url = BASE_DOMAIN ++ py "/")
       then (Some (mkResponse 200 (py "root")), w)
       else (None, w);
     create_document := fun _ w => (true, w) |}.

End SlashFixture.

(** ** Facts about the string functions *)

Module StrFacts.

Lemma startswith_spec (pre s : str) :
  Str.startswith pre s = true <-> exists t, s = pre ++ t.
Proof.
  revert s. induction pre as [|a pre IH]; intros s; simpl.
  - split; [intros _; exists s; reflexivity | reflexivity].
  - destruct s as [|b s]; simpl.
    + split; [discriminate | intros [t Ht]; discriminate].
    + rewrite andb_true_iff, N.eqb_eq, IH. split.
      * intros [-> [t ->]]. exists t. reflexivity.
      * intros [t Ht]. injection Ht as -> ->. split; [reflexivity | exists t; reflexivity].
Qed.

Lemma endswith_spec (suf s : str) :
  Str.endswith suf s = true <-> exists t, s = t ++ suf.
Proof.
  unfold Str.endswith. rewrite startswith_spec. split.
  - intros [t Ht]. exists (rev t).
    rewrite <- (rev_involutive s), Ht, rev_app_distr, rev_involutive. reflexivity.
  - intros [t ->]. exists (rev t). apply rev_app_distr.
Qed.

Lemma contains_spec (sub s : str) :
  Str.contains sub s = true <-> exists a b, s = a ++ sub ++ b.
Proof.
  induction s as [|x s IH].
  - simpl. rewrite orb_false_r, startswith_spec. split.
    + intros [t Ht]. exists [], t. exact Ht.
    + intros (a & b & Hab). destruct a; [exists b; exact Hab | discriminate].
  - cbn [Str.contains]. rewrite orb_true_iff, startswith_spec, IH. split.
    + intros [[t Ht] | (a & b & ->)].
      * exists [], t. exact Ht.
      * exists (x :: a), b. reflexivity.
    + intros (a & b & Hab). destruct a as [|y a].
      * left. exists b. exact Hab.
      * right. injection Hab as _ ->. exists a, b. reflexivity.
Qed.

Lemma ltb_irrefl (a : str) : Str.ltb a a = false.
Proof.
  induction a as [|x a IH]; simpl; [reflexivity|].
  rewrite N.ltb_irrefl, N.eqb_refl, IH. reflexivity.
Qed.

Lemma ltb_cons (x y : codepoint) (a b : str) :
  Str.ltb (x :: a) (y :: b) = true <-> (x < y)%N \/ x = y /\ Str.ltb a b = true.
Proof.
  simpl. rewrite orb_true_iff, andb_true_iff, N.ltb_lt, N.eqb_eq. reflexivity.
Qed.

Lemma ltb_trans (a b c : str) :
  Str.ltb a b = true -> Str.ltb b c = true -> Str.ltb a c = true.
Proof.
  revert b c. induction a as [|x a IH]; intros [|y b] [|z c]; try (simpl; congruence).
  rewrite !ltb_cons. intros [Hxy | [-> Hab]] [Hyz | [-> Hbc]].
  - left. lia.
  - left. exact Hxy.
  - left. exact Hyz.
  - right. split; [reflexivity | eapply IH; eassumption].
Qed.

Lemma ltb_trichotomy (a b : str) :
  Str.ltb a b = true \/ a = b \/ Str.ltb b a = true.
Proof.
  revert b. induction a as [|x a IH]; intros [|y b].
  - right. left. reflexivity.
  - left. reflexivity.
  - right. right. reflexivity.
  - rewrite !ltb_cons.
    destruct (N.lt_trichotomy x y) as [Hlt | [-> | Hgt]].
    + left. left. exact Hlt.
    + destruct (IH b) as [Hab | [-> | Hba]].
      * left. right. split; [reflexivity | exact Hab].
      * right. left. reflexivity.
      * right. right. right. split; [reflexivity | exact Hba].
    + right. right. left. exact Hgt.
Qed.

Lemma ltb_asym (a b : str) : Str.ltb a b = true -> Str.ltb b a = false.
Proof.
  intros Hab. destruct (Str.ltb b a) eqn:Hba; [|reflexivity].
  pose proof (ltb_trans _ _ _ Hab Hba) as Haa.
  rewrite ltb_irrefl in Haa. discriminate.
Qed.

Lemma le_trans (a b c : str) : Str.le a b -> Str.le b c -> Str.le a c.
Proof.
  unfold Str.le. intros Hab Hbc.
  destruct (Str.ltb c a) eqn:Hca; [|reflexivity].
  destruct (ltb_trichotomy a b) as [H1 | [-> | H1]].
  - pose proof (ltb_trans _ _ _ Hca H1). congruence.
  - congruence.
  - congruence.
Qed.

Lemma le_neq_lt (a b : str) : Str.le a b -> a <> b -> Str.ltb a b = true.
Proof.
  unfold Str.le. intros Hle Hne.
  destruct (ltb_trichotomy a b) as [H1 | [-> | H1]]; [exact H1 | contradiction | congruence].
Qed.

Lemma lstrip_by_decompose (drop : codepoint -> bool) (s : str) :
  exists l, s = l ++ Str.lstrip_by drop s /\ Forall (fun c => drop c = true) l.
Proof.
  induction s as [|a s (l & Hl & Hall)]; simpl.
  - exists []. split; [reflexivity | constructor].
  - destruct (drop a) eqn:Ha.
    + exists (a :: l). split; [simpl; f_equal; exact Hl | constructor; assumption].
    + exists []. split; [reflexivity | constructor].
Qed.

Lemma lstrip_by_head (drop : codepoint -> bool) (s : str) (c : codepoint) (t : str) :
  Str.lstrip_by drop s = c :: t -> drop c = false.
Proof.
  induction s as [|a s IH]; simpl; [discriminate|].
  destruct (drop a) eqn:Ha; [exact IH|].
  intros Heq. injection Heq as -> _. exact Ha.
Qed.

(** [strip] removes a run of whitespace at each end, and nothing else. *)
Lemma strip_decompose (s : str) :
  exists l r, s = l ++ Str.strip s ++ r
    /\ Forall (fun c => Str.isspace c = true) l
    /\ Forall (fun c => Str.isspace c = true) r.
Proof.
  unfold Str.strip, Str.rstrip_by.
  destruct (lstrip_by_decompose Str.isspace s) as (l & Hl & Hall).
  destruct (lstrip_by_decompose Str.isspace (rev (Str.lstrip_by Str.isspace s)))
    as (r & Hr & Halr).
  exists l, (rev r). split; [|split].
  - rewrite <- rev_app_distr, <- Hr, rev_involutive. exact Hl.
  - exact Hall.
  - apply Forall_rev. exact Halr.
Qed.

Lemma strip_length (s : str) : (length (Str.strip s) <= length s)%nat.
Proof.
  destruct (strip_decompose s) as (l & r & Hs & _).
  rewrite Hs at 2. rewrite !length_app. lia.
Qed.

End StrFacts.

(** ** Facts about [sorted] *)

Lemma sorted_insert_perm (x : str) (l : list str) :
  Permutation (sorted_insert x l) (x :: l).
Proof.
  induction l as [|y l IH]; simpl; [reflexivity|].
  destruct (Str.ltb y x); [|reflexivity].
  rewrite IH. apply perm_swap.
Qed.

Lemma sorted_perm (l : list str) : Permutation (sorted l) l.
Proof.
  induction l as [|x l IH]; simpl; [reflexivity|].
  rewrite sorted_insert_perm, IH. reflexivity.
Qed.

Lemma sorted_insert_Sorted (x : str) (l : list str) :
  Sorted Str.le l -> Sorted Str.le (sorted_insert x l).
Proof.
  induction l as [|y l IH]; intros Hs; simpl.
  - repeat constructor.
  - inversion Hs as [|? ? Hl Hhd]; subst.
    destruct (Str.ltb y x) eqn:Hyx.
    + constructor; [apply IH; exact Hl|].
      destruct l as [|z l]; simpl.
      * constructor. apply StrFacts.ltb_asym. exact Hyx.
      * destruct (Str.ltb z x); constructor.
        -- inversion Hhd; assumption.
        -- apply StrFacts.ltb_asym. exact Hyx.
    + constructor; [exact Hs|]. constructor. exact Hyx.
Qed.

Lemma sorted_Sorted (l : list str) : Sorted Str.le (sorted l).
Proof.
  induction l as [|x l IH]; simpl; [constructor|].
  apply sorted_insert_Sorted. exact IH.
Qed.

(** On a list without duplicates the result is strictly increasing. *)
Lemma sorted_strict (l : list str) :
  NoDup l -> StronglySorted (fun a b => Str.ltb a b = true) (sorted l).
Proof.
  intros Hnd.
  assert (Hnd' : NoDup (sorted l)) by (rewrite sorted_perm; exact Hnd).
  assert (Hs : StronglySorted Str.le (sorted l)).
  { apply Sorted_StronglySorted; [|apply sorted_Sorted].
    intros a b c. apply StrFacts.le_trans. }
  induction Hs as [|a m Hm IH Hall]; [constructor|].
  apply NoDup_cons in Hnd' as [Hnotin Hnd'].
  constructor; [apply IH; exact Hnd'|].
  rewrite List.Forall_forall in Hall |- *.
  intros b Hb. apply StrFacts.le_neq_lt; [apply Hall; exact Hb|].
  intros ->. apply Hnotin. apply list_elem_of_In. exact Hb.
Qed.

(** ** [extract_info] *)

Section ExtractFacts.
Context {lib : PyLib}.

Lemma extract_info_fields (url : str) (soup : Soup) (pg : Page) :
  extract_info url soup = Some pg ->
  page_url pg = HttpUrl_text url
  /\ page_title pg = extract_title soup
  /\ page_description pg = extract_description soup
  /\ page_keywords_matched pg = extract_matched soup
  /\ page_snippet pg = extract_snippet soup
  /\ page_image pg = extract_image soup.
Proof.
  unfold extract_info. destruct (HttpUrl_validates url); [|discriminate].
  intros [= <-]. simpl. repeat split.
Qed.

(** [extract_info] returns a record whenever the url passes validation. *)
Lemma extract_info_returns (url : str) (soup : Soup) :
  HttpUrl_validates url = true -> exists pg, extract_info url soup = Some pg.
Proof.
  intros Hv. unfold extract_info. rewrite Hv. eexists. reflexivity.
Qed.

Lemma extract_matched_elem (soup : Soup) (kw : str) :
  kw ∈ extract_matched soup
  <-> kw ∈ KEYWORDS /\ Str.contains kw (unicode_lower (soup_text soup)) = true.
Proof.
  unfold extract_matched. rewrite sorted_perm, elem_of_elements, elem_of_list_to_set.
  rewrite !list_elem_of_In, filter_In. reflexivity.
Qed.

Lemma extract_matched_NoDup (soup : Soup) : NoDup (extract_matched soup).
Proof.
  unfold extract_matched. rewrite sorted_perm. apply NoDup_elements.
Qed.

(** C7: the matched keywords are exactly the terms of the fixed list that
    occur as a contiguous run of the lower-cased [get_text(" ")] of the
    document, listed without repetition in strictly increasing lexicographic
    order of their code points. *)
Theorem C7_keywords_matched (url : str) (soup : Soup) (pg : Page) :
  extract_info url soup = Some pg ->
  let text := unicode_lower (soup_text soup) in
  (forall kw : str,
      kw ∈ page_keywords_matched pg
      <-> kw ∈ List.map py
            ["sme"; "smb"; "pricing"; "features"; "merchant"; "e-commerce";
             "ecommerce"; "pos"; "coupon"; "loyalty"; "reward"; "subscription";
             "payment"; "api"; "docs"]%string
          /\ exists a b : str, text = a ++ kw ++ b)
  /\ NoDup (page_keywords_matched pg)
  /\ StronglySorted (fun a b => Str.ltb a b = true) (page_keywords_matched pg).
Proof.
  intros Hpg text.
  destruct (extract_info_fields _ _ _ Hpg) as (_ & _ & _ & -> & _).
  split; [|split].
  - intros kw. rewrite extract_matched_elem, StrFacts.contains_spec. reflexivity.
  - apply extract_matched_NoDup.
  - unfold extract_matched. apply sorted_strict, NoDup_elements.
Qed.

(** C8: the snippet is the first paragraph's text, stripped and cut to its
    first 240 code points; it never has more than 240 code points; it is
    absent when there is no paragraph or the paragraph's text is empty. *)
Theorem C8_snippet (url : str) (soup : Soup) (pg : Page) :
  extract_info url soup = Some pg ->
  (forall text : str,
      soup_first_p soup = Some text -> text <> [] ->
      page_snippet pg = Some (firstn 240 (Str.strip text)))
  /\ (forall s : str, page_snippet pg = Some s -> (length s <= 240)%nat)
  /\ (soup_first_p soup = None \/ soup_first_p soup = Some [] ->
      page_snippet pg = None).
Proof.
  intros Hpg.
  destruct (extract_info_fields _ _ _ Hpg) as (_ & _ & _ & _ & -> & _).
  unfold extract_snippet. split; [|split].
  - intros text -> Hne. destruct text; [contradiction | reflexivity].
  - intros s. destruct (soup_first_p soup) as [text|]; [|discriminate].
    destruct (Str.truthy text); [|discriminate].
    intros [= <-]. rewrite length_firstn. lia.
  - intros [-> | ->]; reflexivity.
Qed.

(** C9, as the code has it: the title is the stripped string of the title
    element whenever that string is non-empty before stripping, and it is
    absent when the title element is missing, holds no single string, or
    holds the empty string. *)
Theorem C9_title (url : str) (soup : Soup) (pg : Page) :
  extract_info url soup = Some pg ->
  (forall s : str,
      soup_title soup = Some (Some s) -> s <> [] ->
      page_title pg = Some (Str.strip s))
  /\ (soup_title soup = None \/ soup_title soup = Some None
      \/ soup_title soup = Some (Some []) ->
      page_title pg = None).
Proof.
  intros Hpg.
  destruct (extract_info_fields _ _ _ Hpg) as (_ & -> & _).
  unfold extract_title. split.
  - intros s -> Hne. destruct s; [contradiction | reflexivity].
  - intros [-> | [-> | ->]]; reflexivity.
Qed.

End ExtractFacts.

Lemma C7_keywords_matched_witness :
  exists pg,
    extract_info (lib := Fixture.lib) BASE_DOMAIN Fixture.seed_soup = Some pg
    /\ page_keywords_matched pg = [py "coupon"; py "pricing"]
    /\ NoDup (page_keywords_matched pg).
Proof.
  eexists. split; [reflexivity|]. split; [reflexivity|].
  exact (proj1 (proj2 (C7_keywords_matched (lib := Fixture.lib)
                         BASE_DOMAIN Fixture.seed_soup _ eq_refl))).
Defined.

Lemma C8_snippet_witness :
  exists pg,
    extract_info (lib := Fixture.lib) BASE_DOMAIN Fixture.seed_soup = Some pg
    /\ page_snippet pg = Some (py "Great pricing and coupon deals")
    /\ forall s : str, page_snippet pg = Some s -> (length s <= 240)%nat.
Proof.
  eexists. split; [reflexivity|]. split; [reflexivity|].
  exact (proj1 (proj2 (C8_snippet (lib := Fixture.lib)
                         BASE_DOMAIN Fixture.seed_soup _ eq_refl))).
Defined.

Lemma C9_title_witness :
  exists pg,
    extract_info (lib := Fixture.lib) BASE_DOMAIN Fixture.seed_soup = Some pg
    /\ page_title pg = Some (Str.strip (py "Mezzofy Pricing")).
Proof.
  eexists. split; [reflexivity|].
  apply (proj1 (C9_title (lib := Fixture.lib) BASE_DOMAIN Fixture.seed_soup _ eq_refl)
           (py "Mezzofy Pricing")).
  - reflexivity.
  - discriminate.
Defined.

(** C9 as stated fails: a title element holding only spaces is empty after
    stripping, yet the extracted title is present, as the empty string. *)
Lemma C9_counterexample :
  soup_title Fixture.blank_title_soup = Some (Some (py "   "))
  /\ Str.strip (py "   ") = []
  /\ option_map page_title
       (extract_info (lib := Fixture.lib) BASE_DOMAIN Fixture.blank_title_soup)
     = Some (Some []).
Proof. repeat split. Qed.

(** ** The crawl loop *)

Lemma fetched_urls_app (tr1 tr2 : list Event) :
  fetched_urls (tr1 ++ tr2) = fetched_urls tr1 ++ fetched_urls tr2.
Proof. apply flat_map_app. Qed.

Lemma stored_pages_app (tr1 tr2 : list Event) :
  stored_pages (tr1 ++ tr2) = stored_pages tr1 ++ stored_pages tr2.
Proof. apply flat_map_app. Qed.

Lemma saved_pages_app (tr1 tr2 : list Event) :
  saved_pages (tr1 ++ tr2) = saved_pages tr1 ++ saved_pages tr2.
Proof. apply flat_map_app. Qed.

(** Splits a hypothesis [crawl_body st = (c, st')] into the five ways through
    the body: empty frontier, already visited, failed fetch, rejected record,
    and the full pass. *)
Ltac crawl_body_cases Hbody :=
  let current := fresh "current" in
  let rest := fresh "rest" in
  let Hq := fresh "Hq" in
  let Hvis := fresh "Hvis" in
  let soup := fresh "soup" in
  let w1 := fresh "w1" in
  let Hfetch := fresh "Hfetch" in
  let pg := fresh "pg" in
  let Hext := fresh "Hext" in
  let saved' := fresh "saved'" in
  let w2 := fresh "w2" in
  let tr2 := fresh "tr2" in
  let Hsave := fresh "Hsave" in
  let c' := fresh "c'" in
  let q' := fresh "q'" in
  let Hdisc := fresh "Hdisc" in
  unfold crawl_body in Hbody;
  destruct (to_visit _) as [|current rest] eqn:Hq;
  [ injection Hbody as <- <-
  | case_bool_decide as Hvis;
    [ injection Hbody as <- <-
    | destruct (fetch_page current _) as [[soup|] w1] eqn:Hfetch;
      [ destruct (extract_info current soup) as [pg|] eqn:Hext;
        [ destruct (save_page pg _ w1 _) as [[saved' w2] tr2] eqn:Hsave;
          destruct (discover_links current _ _ rest) as [c' q'] eqn:Hdisc;
          injection Hbody as <- <-
        | injection Hbody as <- <- ]
      | injection Hbody as <- <- ] ] ].

Section CrawlFacts.
Context {lib : PyLib} {net : Net}.

(** *** The frontier *)

Lemma enqueue_link_spec (vis : gset str) (q : list str) (u : str) :
  (enqueue_link vis q u = q ++ [u]
   <-> is_valid_mezzofy_url u = true /\ (u ∉ vis) /\ (u ∉ q))
  /\ (enqueue_link vis q u = q ++ [u] \/ enqueue_link vis q u = q).
Proof.
  unfold enqueue_link.
  destruct (is_valid_mezzofy_url u) eqn:Hv; simpl.
  - repeat case_bool_decide; simpl; split; try (right; reflexivity); try (left; reflexivity).
    + split; [intros Heq | intros (_ & ? & _); contradiction].
      apply (f_equal length) in Heq. rewrite length_app in Heq. simpl in Heq. lia.
    + split; [intros Heq | intros (_ & ? & _); contradiction].
      apply (f_equal length) in Heq. rewrite length_app in Heq. simpl in Heq. lia.
    + split; [intros Heq | intros (_ & _ & ?); contradiction].
      apply (f_equal length) in Heq. rewrite length_app in Heq. simpl in Heq. lia.
    + split; [intros _; auto | reflexivity].
  - split; [|right; reflexivity].
    split; [intros Heq | intros (? & _); discriminate].
    apply (f_equal length) in Heq. rewrite length_app in Heq. simpl in Heq. lia.
Qed.

Lemma enqueue_link_frontier_ok (vis : gset str) (q : list str) (u : str) :
  frontier_ok vis q -> frontier_ok vis (enqueue_link vis q u).
Proof.
  intros [Hnd Hfresh]. unfold enqueue_link.
  destruct (is_valid_mezzofy_url u); simpl; [|split; assumption].
  repeat case_bool_decide; simpl; try (split; assumption).
  split.
  - apply NoDup_app. split; [exact Hnd|]. split; [|apply NoDup_singleton].
    intros x Hx Hx'. apply list_elem_of_singleton in Hx'. subst. contradiction.
  - intros x Hx. apply elem_of_app in Hx as [Hx | Hx]; [auto|].
    apply list_elem_of_singleton in Hx. subst. assumption.
Qed.

Lemma discover_links_frontier_ok (current : str) (hrefs : list str) (vis : gset str)
    (q : list str) (c : Completion) (q' : list str) :
  discover_links current hrefs vis q = (c, q') ->
  frontier_ok vis q -> frontier_ok vis q'.
Proof.
  revert q. induction hrefs as [|a hrefs IH]; intros q; simpl.
  - intros [= _ <-]. auto.
  - destruct (_ || _); [apply IH|].
    destruct (urljoin current (Str.strip a)) as [absolute|].
    + intros Hd Hok. eapply IH; [exact Hd|]. apply enqueue_link_frontier_ok. exact Hok.
    + intros [= _ <-]. auto.
Qed.

Lemma enqueue_link_cases (vis : gset str) (q : list str) (u : str) :
  (enqueue_link vis q u = q
   /\ (is_valid_mezzofy_url u = false \/ u ∈ vis \/ u ∈ q))
  \/ (enqueue_link vis q u = q ++ [u]
      /\ is_valid_mezzofy_url u = true /\ (u ∉ vis) /\ (u ∉ q)).
Proof.
  unfold enqueue_link. destruct (is_valid_mezzofy_url u); simpl; [|left; auto].
  repeat case_bool_decide; simpl; [left | left | left | right]; auto.
Qed.

(** What the [for] loop of lines 110-116 puts into the frontier: it only
    appends; what it appends are distinct URLs, each the resolution of a
    resolvable [href], in scope, not visited and not waiting before; and when
    the loop runs to its end, every such URL has been appended. *)
Lemma discover_links_enqueued (current : str) (hrefs : list str) (vis : gset str)
    (q : list str) (c : Completion) (q' : list str) :
  discover_links current hrefs vis q = (c, q') ->
  exists added,
    q' = q ++ added
    /\ NoDup added
    /\ (forall u, u ∈ added ->
          is_valid_mezzofy_url u = true /\ (u ∉ vis) /\ (u ∉ q)
          /\ exists a, a ∈ hrefs /\ resolvable a = true
                       /\ urljoin current (Str.strip a) = Some u)
    /\ (c = Normal ->
        forall a u, a ∈ hrefs -> resolvable a = true ->
          urljoin current (Str.strip a) = Some u ->
          is_valid_mezzofy_url u = true -> (u ∉ vis) -> (u ∉ q) -> u ∈ added).
Proof.
  revert q. induction hrefs as [|a0 hrefs IH]; intros q; cbn [discover_links].
  - intros [= _ <-]. exists []. rewrite app_nil_r.
    split; [reflexivity|]. split; [constructor|]. split.
    + intros u Hu. inversion Hu.
    + intros _ a u Ha. inversion Ha.
  - destruct (Str.startswith (py "#") (Str.strip a0)
              || Str.startswith (py "mailto:") (Str.strip a0)) eqn:Hskip.
    + intros Hd. destruct (IH _ Hd) as (added & -> & Hnd & Hsound & Hcompl).
      exists added. split; [reflexivity|]. split; [exact Hnd|]. split.
      * intros u Hu. destruct (Hsound u Hu) as (? & ? & ? & a' & ? & ? & ?).
        repeat split; auto. exists a'. split; [right|]; auto.
      * intros Hc a u Ha Hres Hjoin Hv Hnv Hnq.
        apply elem_of_cons in Ha as [-> | Ha].
        -- unfold resolvable in Hres. rewrite Hskip in Hres. discriminate.
        -- eapply Hcompl; eassumption.
    + destruct (urljoin current (Str.strip a0)) as [absolute|] eqn:Hjoin0.
      * intros Hd. destruct (IH _ Hd) as (added & -> & Hnd & Hsound & Hcompl).
        destruct (enqueue_link_cases vis q absolute)
          as [[Heq Hwhy] | (Heq & Hv0 & Hnv0 & Hnq0)]; rewrite Heq in *.
        -- exists added. split; [reflexivity|]. split; [exact Hnd|]. split.
           ++ intros u Hu. destruct (Hsound u Hu) as (? & ? & ? & a' & ? & ? & ?).
              repeat split; auto. exists a'. split; [right|]; auto.
           ++ intros Hc a u Ha Hres Hjoin Hv Hnv Hnq.
              apply elem_of_cons in Ha as [-> | Ha].
              ** rewrite Hjoin0 in Hjoin. injection Hjoin as ->.
                 exfalso. destruct Hwhy as [Hinv | [Hin | Hin]];
                   [congruence | contradiction | contradiction].
              ** eapply Hcompl; eassumption.
        -- exists (absolute :: added). split; [rewrite <- app_assoc; reflexivity|].
           split; [|split].
           ++ apply NoDup_cons. split; [|exact Hnd].
              intros Hin. destruct (Hsound _ Hin) as (_ & _ & Hnot & _).
              apply Hnot. apply elem_of_app. right. left.
           ++ intros u Hu. apply elem_of_cons in Hu as [-> | Hu].
              ** repeat split; auto. exists a0. split; [left|].
                 split; [unfold resolvable; rewrite Hskip; reflexivity | exact Hjoin0].
              ** destruct (Hsound u Hu) as (? & ? & Hnot & a' & ? & ? & ?).
                 repeat split; auto.
                 --- intros Hin. apply Hnot. apply elem_of_app. left. exact Hin.
                 --- exists a'. split; [right|]; auto.
           ++ intros Hc a u Ha Hres Hjoin Hv Hnv Hnq.
              destruct (decide (u = absolute)) as [-> | Hne]; [left|].
              right. apply elem_of_cons in Ha as [-> | Ha].
              ** rewrite Hjoin0 in Hjoin. injection Hjoin as ->. contradiction.
              ** eapply Hcompl; try eassumption.
                 intros Hin. apply elem_of_app in Hin as [Hin | Hin]; [contradiction|].
                 apply list_elem_of_singleton in Hin. contradiction.
      * intros [= <- <-]. exists []. rewrite app_nil_r.
        split; [reflexivity|]. split; [constructor|]. split.
        -- intros u Hu. inversion Hu.
        -- discriminate.
Qed.

(** *** One pass of the loop *)

Lemma save_page_spec (pg : Page) (s : Z) (w : World) (tr : list Event) :
  (page_keywords_matched pg = [] -> save_page pg s w tr = (s, w, tr))
  /\ (page_keywords_matched pg <> [] ->
      exists ok w',
        create_document pg w = (ok, w')
        /\ save_page pg s w tr
           = (if ok then s + 1 else s, w', tr ++ [EvStore pg ok])).
Proof.
  unfold save_page. split.
  - intros ->. reflexivity.
  - intros Hne. destruct (page_keywords_matched pg); [contradiction|].
    destruct (create_document pg w) as [[|] w']; eexists _, _; split; reflexivity.
Qed.

Lemma crawl_inv_init (start : str) (w : World) : crawl_inv (init_state start w).
Proof.
  constructor; simpl.
  - split; [apply NoDup_singleton | intros u _; apply not_elem_of_empty].
  - constructor.
  - intros u. split; intros Hu; [inversion Hu | exfalso; exact (not_elem_of_empty u Hu)].
  - reflexivity.
  - lia.
  - constructor.
Qed.

Lemma size_add_fresh (x : str) (X : gset str) :
  x ∉ X -> size ({[x]} ∪ X) = S (size X).
Proof.
  intros Hx. rewrite size_union by (apply disjoint_singleton_l; exact Hx).
  rewrite size_singleton. reflexivity.
Qed.

Lemma frontier_ok_pop (vis : gset str) (current : str) (rest : list str) :
  frontier_ok vis (current :: rest) -> frontier_ok ({[current]} ∪ vis) rest.
Proof.
  intros [Hnd Hfresh]. apply NoDup_cons in Hnd as [Hnotin Hnd].
  split; [exact Hnd|]. intros u Hu.
  rewrite elem_of_union, elem_of_singleton. intros [-> | Hin].
  - contradiction.
  - apply (Hfresh u); [right; exact Hu | exact Hin].
Qed.

Lemma save_page_inv (pg : Page) (s : Z) (w : World) (tr : list Event)
    (s' : Z) (w' : World) (tr' : list Event) :
  save_page pg s w tr = (s', w', tr') ->
  fetched_urls tr' = fetched_urls tr
  /\ s' - s = Z.of_nat (length (saved_pages tr')) - Z.of_nat (length (saved_pages tr))
  /\ s <= s' <= s + 1
  /\ (Forall (fun pg => page_keywords_matched pg <> []) (stored_pages tr) ->
      Forall (fun pg => page_keywords_matched pg <> []) (stored_pages tr')).
Proof.
  unfold save_page.
  destruct (page_keywords_matched pg) as [|k ks] eqn:Hk.
  - intros [= <- <- <-]. repeat split; auto; lia.
  - destruct (create_document pg w) as [[|] w'']; intros [= <- <- <-];
      rewrite fetched_urls_app, saved_pages_app, stored_pages_app, length_app; simpl;
      rewrite app_nil_r; (repeat split; [lia .. |]);
      intros Hall; apply Forall_app; (split; [exact Hall|]);
      constructor; [congruence | constructor | congruence | constructor].
Qed.

Lemma crawl_body_inv (st : LoopState) (c : Completion) (st' : LoopState) :
  crawl_body st = (c, st') -> crawl_inv st -> crawl_inv st'.
Proof.
  intros Hbody [Hfr Hnd Hfv Hsc Hsl Hrel].
  crawl_body_cases Hbody.
  - constructor; rewrite ?Hq; assumption.
  - destruct Hfr as [_ Hfresh].
    exfalso. apply (Hfresh current); [left | assumption].
  - (* full pass *)
    destruct (save_page_inv _ _ _ _ _ _ _ Hsave) as (Hf & Hcount & Hbound & Hrel').
    rewrite fetched_urls_app in Hf. simpl in Hf.
    rewrite saved_pages_app in Hcount. simpl in Hcount. rewrite app_nil_r in Hcount.
    rewrite stored_pages_app in Hrel'. simpl in Hrel'. rewrite app_nil_r in Hrel'.
    constructor; simpl.
    + eapply discover_links_frontier_ok; [exact Hdisc|]. apply frontier_ok_pop. exact Hfr.
    + rewrite Hf. apply NoDup_app. split; [exact Hnd|]. split; [|apply NoDup_singleton].
      intros x Hx Hx'. apply list_elem_of_singleton in Hx'. subst.
      apply Hvis, Hfv. exact Hx.
    + intros u. rewrite Hf, elem_of_app, list_elem_of_singleton, Hfv.
      rewrite elem_of_union, elem_of_singleton. tauto.
    + lia.
    + rewrite size_add_fresh by exact Hvis. lia.
    + apply Hrel'. exact Hrel.
  - (* [Page(...)] raised *)
    constructor; simpl;
      rewrite ?fetched_urls_app, ?saved_pages_app, ?stored_pages_app; simpl;
      rewrite ?app_nil_r.
    + apply frontier_ok_pop. exact Hfr.
    + apply NoDup_app. split; [exact Hnd|]. split; [|apply NoDup_singleton].
      intros x Hx Hx'. apply list_elem_of_singleton in Hx'. subst.
      apply Hvis, Hfv. exact Hx.
    + intros u. rewrite elem_of_app, list_elem_of_singleton, Hfv.
      rewrite elem_of_union, elem_of_singleton. tauto.
    + exact Hsc.
    + rewrite size_add_fresh by exact Hvis. lia.
    + exact Hrel.
  - (* failed fetch *)
    constructor; simpl;
      rewrite ?fetched_urls_app, ?saved_pages_app, ?stored_pages_app; simpl;
      rewrite ?app_nil_r.
    + apply frontier_ok_pop. exact Hfr.
    + apply NoDup_app. split; [exact Hnd|]. split; [|apply NoDup_singleton].
      intros x Hx Hx'. apply list_elem_of_singleton in Hx'. subst.
      apply Hvis, Hfv. exact Hx.
    + intros u. rewrite elem_of_app, list_elem_of_singleton, Hfv.
      rewrite elem_of_union, elem_of_singleton. tauto.
    + exact Hsc.
    + rewrite size_add_fresh by exact Hvis. lia.
    + exact Hrel.
Qed.
Lemma crawl_body_visited_size (st : LoopState) (c : Completion) (st' : LoopState) :
  crawl_body st = (c, st') ->
  (size (visited st') <= S (size (visited st)))%nat.
Proof.
  intros Hbody. crawl_body_cases Hbody; simpl;
    rewrite ?size_add_fresh by assumption; lia.
Qed.

Lemma crawl_body_trace_extends (st : LoopState) (c : Completion) (st' : LoopState) :
  crawl_body st = (c, st') -> exists extra, trace st' = trace st ++ extra.
Proof.
  intros Hbody. crawl_body_cases Hbody; simpl.
  - exists []. symmetry. apply app_nil_r.
  - exists []. symmetry. apply app_nil_r.
  - unfold save_page in Hsave.
    destruct (page_keywords_matched pg).
    + injection Hsave as _ _ <-. eexists. reflexivity.
    + destruct (create_document pg w1) as [[|] w3]; injection Hsave as _ _ <-;
        rewrite <- app_assoc; eexists; reflexivity.
  - eexists. reflexivity.
  - eexists. reflexivity.
Qed.

(** Where the frontier holds no visited URL, a pass marks one more URL. *)
Lemma crawl_body_marks_one (max_pages : Z) (st : LoopState) (c : Completion)
    (st' : LoopState) :
  crawl_inv st -> loop_cond max_pages st = true -> crawl_body st = (c, st') ->
  size (visited st') = S (size (visited st)).
Proof.
  intros Hinv Hcond Hbody. destruct Hinv as [[_ Hfresh] _ _ _ _ _].
  unfold loop_cond in Hcond.
  crawl_body_cases Hbody; simpl; try (apply size_add_fresh; assumption).
  - discriminate.
  - exfalso. apply (Hfresh current); [left | assumption].
Qed.

(** *** Fuel *)

Lemma crawl_loop_fuel_mono (max_pages : Z) (fuel fuel' : nat) (st : LoopState)
    (r : Completion * LoopState) :
  crawl_loop max_pages fuel st = Some r -> (fuel <= fuel')%nat ->
  crawl_loop max_pages fuel' st = Some r.
Proof.
  revert fuel' st. induction fuel as [|fuel IH]; intros fuel' st; simpl.
  - destruct (loop_cond max_pages st) eqn:Hc; [discriminate|].
    intros Hr _. destruct fuel'; simpl; rewrite Hc; exact Hr.
  - destruct (loop_cond max_pages st) eqn:Hc.
    + intros Hr Hle. destruct fuel' as [|fuel']; [lia|]. simpl. rewrite Hc.
      destruct (crawl_body st) as [[|] st1]; [|exact Hr].
      apply IH; [exact Hr | lia].
    + intros Hr _. destruct fuel'; simpl; rewrite Hc; exact Hr.
Qed.

(** The loop ends within [max_pages - len(visited)] passes. *)
Lemma crawl_loop_fuel_enough (max_pages : Z) (fuel : nat) (st : LoopState) :
  crawl_inv st ->
  (Z.to_nat (max_pages - Z.of_nat (size (visited st))) <= fuel)%nat ->
  exists r, crawl_loop max_pages fuel st = Some r.
Proof.
  revert st. induction fuel as [|fuel IH]; intros st Hinv Hfuel; simpl.
  - destruct (loop_cond max_pages st) eqn:Hc; [|eexists; reflexivity].
    unfold loop_cond in Hc. apply andb_true_iff in Hc as [_ Hlt].
    apply Z.ltb_lt in Hlt. lia.
  - destruct (loop_cond max_pages st) eqn:Hc; [|eexists; reflexivity].
    destruct (crawl_body st) as [[|] st1] eqn:Hbody; [|eexists; reflexivity].
    apply IH.
    + eapply crawl_body_inv; eassumption.
    + rewrite (crawl_body_marks_one _ _ _ _ Hinv Hc Hbody). lia.
Qed.

Lemma crawl_loop_reachable (max_pages : Z) (st0 : LoopState) (fuel : nat)
    (st : LoopState) (c : Completion) (st' : LoopState) :
  reachable max_pages st0 Normal st ->
  crawl_loop max_pages fuel st = Some (c, st') ->
  reachable max_pages st0 c st'
  /\ (c = Normal -> loop_cond max_pages st' = false).
Proof.
  revert st. induction fuel as [|fuel IH]; intros st Hreach; simpl.
  - destruct (loop_cond max_pages st) eqn:Hc; [discriminate|].
    intros [= <- <-]. auto.
  - destruct (loop_cond max_pages st) eqn:Hc.
    + destruct (crawl_body st) as [[|] st1] eqn:Hbody.
      * apply IH. eapply reachable_pass; eassumption.
      * intros [= <- <-]. split; [|discriminate].
        eapply reachable_pass; eassumption.
    + intros [= <- <-]. auto.
Qed.

Lemma reachable_inv (max_pages : Z) (st0 : LoopState) (c : Completion) (st : LoopState) :
  crawl_inv st0 -> reachable max_pages st0 c st -> crawl_inv st.
Proof.
  intros Hinit Hreach. induction Hreach as [|st c st' _ IH _ Hbody]; [exact Hinit|].
  eapply crawl_body_inv; eassumption.
Qed.

Lemma reachable_visited_bound (max_pages : Z) (st0 : LoopState) (c : Completion)
    (st : LoopState) :
  reachable max_pages st0 c st ->
  Z.of_nat (size (visited st)) <= Z.max max_pages (Z.of_nat (size (visited st0))).
Proof.
  intros Hreach. induction Hreach as [|st c st' _ IH Hcond Hbody]; [lia|].
  unfold loop_cond in Hcond. apply andb_true_iff in Hcond as [_ Hlt].
  apply Z.ltb_lt in Hlt.
  pose proof (crawl_body_visited_size _ _ _ Hbody). lia.
Qed.

Lemma reachable_trace_extends (max_pages : Z) (st0 : LoopState) (c : Completion)
    (st : LoopState) :
  reachable max_pages st0 c st -> exists extra, trace st = trace st0 ++ extra.
Proof.
  intros Hreach. induction Hreach as [|st c st' _ [e1 IH] _ Hbody].
  - exists []. symmetry. apply app_nil_r.
  - destruct (crawl_body_trace_extends _ _ _ Hbody) as [e2 He2].
    exists (e1 ++ e2). rewrite He2, IH, app_assoc. reflexivity.
Qed.

(** *** The endpoint *)

(** [crawl] always ends: the fuel it is given is enough. *)
Lemma crawl_returns (req : CrawlRequest) (w : World) :
  exists r, crawl req w = Some r.
Proof.
  unfold crawl, crawl_with.
  destruct (is_valid_mezzofy_url (effective_start_url req)); simpl;
    [|eexists; reflexivity].
  destruct (crawl_loop_fuel_enough (max_pages req) (Z.to_nat (max_pages req))
              (init_state (effective_start_url req) w)) as [[[|] st] Hr].
  - apply crawl_inv_init.
  - unfold init_state. cbn [visited]. rewrite size_empty. lia.
  - rewrite Hr. eexists. reflexivity.
  - rewrite Hr. eexists. reflexivity.
Qed.

(** More fuel changes nothing: any run that ends gives the result of [crawl]. *)
Lemma crawl_with_agrees (fuel : nat) (req : CrawlRequest) (w : World)
    (r : Outcome * World * list Event) :
  crawl_with fuel req w = Some r -> crawl req w = Some r.
Proof.
  unfold crawl, crawl_with.
  destruct (is_valid_mezzofy_url (effective_start_url req)); simpl; [|auto].
  set (st0 := init_state (effective_start_url req) w).
  destruct (crawl_loop (max_pages req) fuel st0) as [x|] eqn:Hx; [|discriminate].
  destruct (crawl_loop_fuel_enough (max_pages req) (Z.to_nat (max_pages req)) st0)
    as [y Hy].
  - apply crawl_inv_init.
  - subst st0. unfold init_state. cbn [visited]. rewrite size_empty. lia.
  - set (big := Nat.max fuel (Z.to_nat (max_pages req))).
    pose proof (crawl_loop_fuel_mono _ _ big _ _ Hx ltac:(lia)) as Hx'.
    pose proof (crawl_loop_fuel_mono _ _ big _ _ Hy ltac:(lia)) as Hy'.
    rewrite Hy. assert (x = y) as -> by congruence. auto.
Qed.

(** The two ways [crawl] ends: the 400 before the loop, or whatever state the
    loop stops in. *)
Lemma crawl_result (req : CrawlRequest) (w : World) (out : Outcome) (w' : World)
    (tr : list Event) :
  crawl req w = Some (out, w', tr) ->
  (is_valid_mezzofy_url (effective_start_url req) = false
   /\ out = HTTPException 400 (py "start_url must be mezzofy.com")
   /\ w' = w /\ tr = [])
  \/ (is_valid_mezzofy_url (effective_start_url req) = true
      /\ exists c st,
          reachable (max_pages req) (init_state (effective_start_url req) w) c st
          /\ w' = world st /\ tr = trace st
          /\ match c with
             | Normal =>
                 out = Return (Z.of_nat (size (visited st))) (saved st)
                 /\ loop_cond (max_pages req) st = false
             | Raised => out = Unhandled
             end).
Proof.
  unfold crawl, crawl_with.
  destruct (is_valid_mezzofy_url (effective_start_url req)); simpl.
  - destruct (crawl_loop _ _ _) as [[c st]|] eqn:Hloop; [|discriminate].
    apply crawl_loop_reachable with (st0 := init_state (effective_start_url req) w)
      in Hloop as [Hreach Hexit]; [|constructor].
    intros Hr. right. split; [reflexivity|]. exists c, st.
    destruct c; injection Hr as <- <- <-; repeat split; auto.
  - intros [= <- <- <-]. left. auto.
Qed.

End CrawlFacts.

(** ** The claims about [crawl] *)

Section CrawlClaims.
Context {lib : PyLib} {net : Net}.

Lemma crawl_with_no_budget (fuel : nat) (req : CrawlRequest) (w : World) :
  is_valid_mezzofy_url (effective_start_url req) = true ->
  max_pages req <= 0 ->
  crawl_with fuel req w = Some (Return 0 0, w, []).
Proof.
  intros Hvalid Hmax. unfold crawl_with. rewrite Hvalid. simpl.
  assert (Hcond : loop_cond (max_pages req) (init_state (effective_start_url req) w) = false).
  { unfold loop_cond, init_state. cbn [to_visit visited]. rewrite size_empty.
    simpl. apply Z.ltb_ge. exact Hmax. }
  destruct fuel; simpl; rewrite Hcond; unfold init_state; cbn [visited saved world trace];
    rewrite size_empty; reflexivity.
Qed.

(** C10: with an in-scope start URL and [max_pages <= 0] the loop condition
    is false at once, so no pass runs: nothing is fetched, the world is
    untouched and the call returns visited 0 and saved 0. *)
Theorem C10_no_budget_no_pass (req : CrawlRequest) (w : World) :
  is_valid_mezzofy_url (effective_start_url req) = true ->
  max_pages req <= 0 ->
  loop_cond (max_pages req) (init_state (effective_start_url req) w) = false
  /\ crawl req w = Some (Return 0 0, w, [])
  /\ forall fuel, crawl_with fuel req w = Some (Return 0 0, w, []).
Proof.
  intros Hvalid Hmax. split; [|split].
  - unfold loop_cond, init_state. cbn [to_visit visited]. rewrite size_empty.
    simpl. apply Z.ltb_ge. exact Hmax.
  - apply crawl_with_no_budget; assumption.
  - intros fuel. apply crawl_with_no_budget; assumption.
Qed.

(** C4, as the code has it: for [max_pages >= 0], no state of the loop has
    more than [max_pages] URLs marked visited, and the call ends with a
    visited count of at most [max_pages]. *)
Theorem C4_visited_bound (req : CrawlRequest) (w : World) :
  0 <= max_pages req ->
  (forall c st,
      reachable (max_pages req) (init_state (effective_start_url req) w) c st ->
      Z.of_nat (size (visited st)) <= max_pages req)
  /\ exists out w' tr,
      crawl req w = Some (out, w', tr)
      /\ forall v s, out = Return v s -> v <= max_pages req.
Proof.
  intros Hmax.
  assert (Hbound : forall c st,
             reachable (max_pages req) (init_state (effective_start_url req) w) c st ->
             Z.of_nat (size (visited st)) <= max_pages req).
  { intros c st Hreach. apply reachable_visited_bound in Hreach.
    unfold init_state in Hreach. cbn [visited] in Hreach.
    rewrite size_empty in Hreach. lia. }
  split; [exact Hbound|].
  destruct (crawl_returns req w) as [[[out w'] tr] Hr].
  exists out, w', tr. split; [exact Hr|].
  intros v s ->.
  apply crawl_result in Hr as [(_ & Hout & _) | (_ & c & st & Hreach & _ & _ & Hc)];
    [discriminate|].
  destruct c; [|discriminate].
  destruct Hc as [[= -> ->] _]. eapply Hbound. exact Hreach.
Qed.

(** C5: a discovered URL joins the frontier exactly when it is in scope,
    not visited and not already in the frontier, link by link and over the
    whole link loop of a pass: the pass appends to the frontier the distinct
    URLs that some resolvable [href] of the page resolves to and that are in
    scope, not visited and not waiting, and (when the loop runs to its end)
    all of these; the frontier never holds a URL twice; no URL is fetched
    twice, in any state of the loop and in the finished call. *)
Theorem C5_fetch_once (req : CrawlRequest) (w : World) :
  (forall (vis : gset str) (q : list str) (u : str),
      (enqueue_link vis q u = q ++ [u]
       <-> is_valid_mezzofy_url u = true /\ (u ∉ vis) /\ (u ∉ q))
      /\ (enqueue_link vis q u = q ++ [u] \/ enqueue_link vis q u = q))
  /\ (forall c st,
        reachable (max_pages req) (init_state (effective_start_url req) w) c st ->
        NoDup (to_visit st) /\ NoDup (fetched_urls (trace st)))
  /\ (exists out w' tr,
        crawl req w = Some (out, w', tr) /\ NoDup (fetched_urls tr))
  /\ (forall (st : LoopState) (current : str) (rest : list str) (soup : Soup)
             (w1 : World) (pg : Page) (c : Completion) (st' : LoopState),
        to_visit st = current :: rest ->
        current ∉ visited st ->
        fetch_page current (world st) = (Some soup, w1) ->
        extract_info current soup = Some pg ->
        crawl_body st = (c, st') ->
        exists added,
          to_visit st' = rest ++ added
          /\ NoDup added
          /\ (forall u, u ∈ added ->
                is_valid_mezzofy_url u = true /\ (u ∉ visited st') /\ (u ∉ rest)
                /\ exists a, a ∈ soup_anchors soup /\ resolvable a = true
                             /\ urljoin current (Str.strip a) = Some u)
          /\ (c = Normal ->
              forall a u,
                a ∈ soup_anchors soup -> resolvable a = true ->
                urljoin current (Str.strip a) = Some u ->
                (u ∈ added
                 <-> is_valid_mezzofy_url u = true /\ (u ∉ visited st')
                     /\ (u ∉ rest)))).
Proof.
  assert (Hinv : forall c st,
             reachable (max_pages req) (init_state (effective_start_url req) w) c st ->
             NoDup (to_visit st) /\ NoDup (fetched_urls (trace st))).
  { intros c st Hreach.
    apply reachable_inv in Hreach as [[Hnd _] Hf _ _ _ _]; [|apply crawl_inv_init].
    split; assumption. }
  split; [apply enqueue_link_spec|]. split; [exact Hinv|]. split.
  - destruct (crawl_returns req w) as [[[out w'] tr] Hr].
    exists out, w', tr. split; [exact Hr|].
    apply crawl_result in Hr as [(_ & _ & _ & ->) | (_ & c & st & Hreach & _ & -> & _)].
    + constructor.
    + apply (Hinv c st Hreach).
  - intros st current rest soup w1 pg c st' Hq Hvis Hfetch Hext Hbody.
    unfold crawl_body in Hbody.
    rewrite Hq, (bool_decide_eq_false_2 _ Hvis), Hfetch, Hext in Hbody.
    destruct (save_page pg (saved st) w1 (trace st ++ [EvFetch current]))
      as [[saved' w2] tr2].
    destruct (discover_links current (soup_anchors soup) ({[current]} ∪ visited st) rest)
      as [c0 q] eqn:Hdisc.
    injection Hbody as <- <-. cbn [to_visit visited].
    destruct (discover_links_enqueued _ _ _ _ _ _ Hdisc)
      as (added & -> & Hnd & Hsound & Hcompl).
    exists added. split; [reflexivity|]. split; [exact Hnd|]. split; [exact Hsound|].
    intros Hc a u Ha Hres Hjoin. split.
    + intros Hu. destruct (Hsound u Hu) as (? & ? & ? & _). auto.
    + intros (Hv & Hnv & Hnq). eapply Hcompl; eassumption.
Qed.

(** A pass over a page that was fetched and extracted: what is stored and
    counted depends on the matched keywords and on the store's answer; how
    the pass ends and what the frontier becomes depends on neither. *)
Lemma crawl_body_fetched (st : LoopState) (current : str) (rest : list str)
    (soup : Soup) (w1 : World) (pg : Page) :
  to_visit st = current :: rest ->
  current ∉ visited st ->
  fetch_page current (world st) = (Some soup, w1) ->
  extract_info current soup = Some pg ->
  exists c q,
    discover_links current (soup_anchors soup) ({[current]} ∪ visited st) rest = (c, q)
    /\ (page_keywords_matched pg = [] ->
        crawl_body st
        = (c, mkLoopState q ({[current]} ∪ visited st) (saved st) w1
                (trace st ++ [EvFetch current])))
    /\ (page_keywords_matched pg <> [] ->
        forall ok w2,
          create_document pg w1 = (ok, w2) ->
          crawl_body st
          = (c, mkLoopState q ({[current]} ∪ visited st)
                  (if ok then saved st + 1 else saved st) w2
                  (trace st ++ [EvFetch current; EvStore pg ok]))).
Proof.
  intros Hq Hvis Hfetch Hext.
  destruct (discover_links current (soup_anchors soup) ({[current]} ∪ visited st) rest)
    as [c q] eqn:Hdisc.
  exists c, q. split; [reflexivity|].
  unfold crawl_body. rewrite Hq, (bool_decide_eq_false_2 _ Hvis), Hfetch, Hext.
  unfold save_page. split.
  - intros ->. rewrite Hdisc. reflexivity.
  - intros Hne ok w2 Hcreate. destruct (page_keywords_matched pg); [contradiction|].
    rewrite Hcreate, Hdisc. destruct ok; rewrite <- app_assoc; reflexivity.
Qed.

(** C3: the record of a fetched page goes to [create_document] exactly when
    its matched keywords are non-empty; the saved count goes up by one
    exactly when that call returns, and a raising call leaves the count and
    the course of the pass as they are; the saved count is the number of
    calls that returned, every stored record has matched keywords, and the
    call ends with saved <= visited. *)
Theorem C3_persistence (req : CrawlRequest) (w : World) :
  (forall (st : LoopState) (current : str) (rest : list str) (soup : Soup)
          (w1 : World) (pg : Page),
      to_visit st = current :: rest ->
      current ∉ visited st ->
      fetch_page current (world st) = (Some soup, w1) ->
      extract_info current soup = Some pg ->
      exists c q,
        discover_links current (soup_anchors soup) ({[current]} ∪ visited st) rest = (c, q)
        /\ (page_keywords_matched pg = [] ->
            crawl_body st
            = (c, mkLoopState q ({[current]} ∪ visited st) (saved st) w1
                    (trace st ++ [EvFetch current])))
        /\ (page_keywords_matched pg <> [] ->
            forall ok w2,
              create_document pg w1 = (ok, w2) ->
              crawl_body st
              = (c, mkLoopState q ({[current]} ∪ visited st)
                      (if ok then saved st + 1 else saved st) w2
                      (trace st ++ [EvFetch current; EvStore pg ok]))))
  /\ (forall c st,
        reachable (max_pages req) (init_state (effective_start_url req) w) c st ->
        saved st = Z.of_nat (length (saved_pages (trace st)))
        /\ saved st <= Z.of_nat (size (visited st))
        /\ Forall (fun pg => page_keywords_matched pg <> []) (stored_pages (trace st)))
  /\ exists out w' tr,
      crawl req w = Some (out, w', tr)
      /\ Forall (fun pg => page_keywords_matched pg <> []) (stored_pages tr)
      /\ forall v s,
          out = Return v s -> s = Z.of_nat (length (saved_pages tr)) /\ s <= v.
Proof.
  assert (Hinv : forall c st,
             reachable (max_pages req) (init_state (effective_start_url req) w) c st ->
             saved st = Z.of_nat (length (saved_pages (trace st)))
             /\ saved st <= Z.of_nat (size (visited st))
             /\ Forall (fun pg => page_keywords_matched pg <> []) (stored_pages (trace st))).
  { intros c st Hreach.
    apply reachable_inv in Hreach as [_ _ _ Hsc Hsl Hrel]; [|apply crawl_inv_init].
    repeat split; assumption. }
  split; [apply crawl_body_fetched|]. split; [exact Hinv|].
  destruct (crawl_returns req w) as [[[out w'] tr] Hr].
  exists out, w', tr. split; [exact Hr|].
  apply crawl_result in Hr
    as [(_ & -> & _ & ->) | (_ & c & st & Hreach & _ & -> & Hc)].
  - split; [constructor | discriminate].
  - destruct (Hinv c st Hreach) as (Hsc & Hsl & Hrel).
    split; [exact Hrel|]. intros v s ->.
    destruct c; [|discriminate]. destruct Hc as [[= -> ->] _]. auto.
Qed.

(** [fetch_page] gives [None] on a timeout or transport error, on a status
    other than 200, and when the parser raises. *)
Lemma fetch_page_failure (url : str) (w : World) :
  (fetch_page url w).1 = None
  <-> (requests_get url w).1 = None
      \/ (exists resp, (requests_get url w).1 = Some resp /\ status_code resp <> 200)
      \/ (exists resp, (requests_get url w).1 = Some resp /\ status_code resp = 200
                       /\ BeautifulSoup_lxml (resp_text resp) = None).
Proof.
  unfold fetch_page. destruct (requests_get url w) as [[resp|] w']; simpl.
  - destruct (Z.eqb_spec (status_code resp) 200) as [Heq | Hne]; simpl.
    + split.
      * intros Hp. right. right. exists resp. auto.
      * intros [? | [(r & [= <-] & ?) | (r & [= <-] & _ & ?)]];
          [discriminate | contradiction | assumption].
    + split; [|reflexivity]. intros _. right. left. exists resp. auto.
  - split; [left|]; reflexivity.
Qed.

Lemma crawl_body_fetch_failed (st : LoopState) (current : str) (rest : list str)
    (w1 : World) :
  to_visit st = current :: rest ->
  current ∉ visited st ->
  fetch_page current (world st) = (None, w1) ->
  crawl_body st
  = (Normal, mkLoopState rest ({[current]} ∪ visited st) (saved st) w1
               (trace st ++ [EvFetch current])).
Proof.
  intros Hq Hvis Hfetch. unfold crawl_body.
  rewrite Hq, (bool_decide_eq_false_2 _ Hvis), Hfetch. reflexivity.
Qed.

(** C6: a pass whose fetch fails marks the URL visited, leaves the rest of
    the frontier, the saved count and the store untouched, and ends normally,
    so the loop goes on; a fetch fails on a timeout or transport error and on
    any status other than 200; and when the fetch of the seed fails, the call
    returns visited 1 and saved 0 after that single fetch. *)
Theorem C6_fetch_failure (req : CrawlRequest) (w : World) :
  (forall (st : LoopState) (current : str) (rest : list str) (w1 : World),
      to_visit st = current :: rest ->
      current ∉ visited st ->
      fetch_page current (world st) = (None, w1) ->
      crawl_body st
      = (Normal, mkLoopState rest ({[current]} ∪ visited st) (saved st) w1
                   (trace st ++ [EvFetch current])))
  /\ (forall (url : str) (w0 : World),
        (requests_get url w0).1 = None
        \/ (exists resp, (requests_get url w0).1 = Some resp /\ status_code resp <> 200) ->
        (fetch_page url w0).1 = None)
  /\ (is_valid_mezzofy_url (effective_start_url req) = true ->
      1 <= max_pages req ->
      (fetch_page (effective_start_url req) w).1 = None ->
      crawl req w
      = Some (Return 1 0, (fetch_page (effective_start_url req) w).2,
              [EvFetch (effective_start_url req)])).
Proof.
  split; [apply crawl_body_fetch_failed|]. split.
  - intros url w0 Hfail. apply fetch_page_failure. tauto.
  - intros Hvalid Hmax Hfail.
    apply (crawl_with_agrees 1). unfold crawl_with. rewrite Hvalid. simpl.
    set (start := effective_start_url req) in *.
    destruct (fetch_page start w) as [soup w1] eqn:Hfetch. simpl in Hfail. subst soup.
    assert (Hcond : loop_cond (max_pages req) (init_state start w) = true).
    { unfold loop_cond, init_state. cbn [to_visit visited]. rewrite size_empty.
      simpl. apply Z.ltb_lt. lia. }
    rewrite Hcond.
    rewrite (crawl_body_fetch_failed (init_state start w) start [] w1);
      [|reflexivity | apply not_elem_of_empty | exact Hfetch].
    unfold loop_cond. cbn [to_visit visited saved world trace init_state andb].
    rewrite size_add_fresh by apply not_elem_of_empty. rewrite size_empty.
    reflexivity.
Qed.

(** The 400 answer is given exactly to the start URLs the validator rejects,
    and then nothing has been fetched or stored. *)
Lemma crawl_400_iff (req : CrawlRequest) (w : World) :
  is_valid_mezzofy_url (effective_start_url req) = false
  <-> crawl req w = Some (HTTPException 400 (py "start_url must be mezzofy.com"), w, []).
Proof.
  split.
  - intros Hv. unfold crawl, crawl_with. rewrite Hv. reflexivity.
  - intros Hr. apply crawl_result in Hr as [(Hv & _) | (_ & c & st & _ & _ & _ & Hc)];
      [exact Hv|].
    destruct c; [destruct Hc as [? _]|]; discriminate.
Qed.

(** With an accepted start URL and room for one page, the first thing the
    call does is fetch the start URL. *)
Lemma crawl_fetches_start (req : CrawlRequest) (w : World) :
  is_valid_mezzofy_url (effective_start_url req) = true ->
  1 <= max_pages req ->
  exists out w' tr,
    crawl req w = Some (out, w', EvFetch (effective_start_url req) :: tr)
    /\ forall code detail, out <> HTTPException code detail.
Proof.
  intros Hvalid Hmax.
  destruct (crawl_returns req w) as [[[out w'] tr] Hr].
  pose proof Hr as Hr0.
  unfold crawl, crawl_with in Hr. rewrite Hvalid in Hr. simpl in Hr.
  set (start := effective_start_url req) in *.
  destruct (Z.to_nat (max_pages req)) as [|fuel] eqn:Hfuel; [lia|].
  simpl in Hr.
  assert (Hcond : loop_cond (max_pages req) (init_state start w) = true).
  { unfold loop_cond, init_state. cbn [to_visit visited]. rewrite size_empty.
    simpl. apply Z.ltb_lt. lia. }
  rewrite Hcond in Hr.
  destruct (crawl_body (init_state start w)) as [c1 st1] eqn:Hbody.
  assert (Hfirst : exists tr1, trace st1 = EvFetch start :: tr1).
  { pose proof Hbody as Hb. crawl_body_cases Hb; simpl.
    - discriminate.
    - injection Hq as -> _. exfalso. exact (not_elem_of_empty _ Hvis).
    - injection Hq as -> _.
      unfold save_page in Hsave. destruct (page_keywords_matched pg).
      + injection Hsave as _ _ <-. eexists. reflexivity.
      + destruct (create_document pg w1) as [[|] w3]; injection Hsave as _ _ <-;
          eexists; reflexivity.
    - injection Hq as -> _. eexists. reflexivity.
    - injection Hq as -> _. eexists. reflexivity. }
  destruct Hfirst as [tr1 Htr1].
  assert (Hend : exists extra, tr = trace st1 ++ extra
                              /\ forall code detail, out <> HTTPException code detail).
  { destruct c1.
    - destruct (crawl_loop (max_pages req) fuel st1) as [[c st]|] eqn:Hloop;
        [|discriminate].
      pose proof (crawl_loop_reachable _ st1 _ _ _ _ (reachable_init _ _) Hloop)
        as [Hreach _].
      destruct (reachable_trace_extends _ _ _ _ Hreach) as [extra Hextra].
      exists extra. destruct c; injection Hr as <- <- <-; split; auto; discriminate.
    - exists []. injection Hr as <- <- <-.
      split; [symmetry; apply app_nil_r | discriminate]. }
  destruct Hend as (extra & -> & Hout).
  exists out, w', (tr1 ++ extra). split; [|exact Hout].
  rewrite Hr0, Htr1. reflexivity.
Qed.

End CrawlClaims.

(** ** The scope check on concrete URLs *)

Section ScopeClaims.
Context {lib : PyLib} {net : Net}.

(** What the validator tests: the parse succeeds, the raw netloc ends with
    the characters [mezzofy.com], and the scheme is [http] or [https]. *)
Lemma is_valid_mezzofy_url_spec (url : str) :
  is_valid_mezzofy_url url = true
  <-> exists parsed,
        UrlParse.urlparse url = Some parsed
        /\ (exists t, UrlParse.netloc parsed = t ++ py "mezzofy.com")
        /\ (UrlParse.scheme parsed = py "http" \/ UrlParse.scheme parsed = py "https").
Proof.
  unfold is_valid_mezzofy_url.
  destruct (UrlParse.urlparse url) as [parsed|].
  - rewrite andb_true_iff, StrFacts.endswith_spec, bool_decide_eq_true.
    rewrite !elem_of_cons. split.
    + intros [Hn [Hs | [Hs | Hs]]]; [| |inversion Hs]; exists parsed; auto.
    + intros (p & [= <-] & Hn & Hs). split; [exact Hn|]. tauto.
  - split; [discriminate | intros (p & Hp & _); discriminate].
Qed.

(** C1 at the URLs it names: the sub-domain is accepted and the two
    look-alike URLs are rejected, but [https://notmezzofy.com], whose host
    only ends in the characters [mezzofy.com], is accepted as well. *)
Theorem C1_scope_check_on_named_urls :
  is_valid_mezzofy_url (py "https://notmezzofy.com") = true
  /\ is_valid_mezzofy_url (py "https://sub.mezzofy.com") = true
  /\ is_valid_mezzofy_url (py "https://evil.com/mezzofy.com") = false
  /\ is_valid_mezzofy_url (py "https://mezzofy.com.evil.com") = false.
Proof. repeat split; vm_compute; reflexivity. Qed.

(** The test reads the netloc, not the host: a port or upper-case letters
    put a URL of the root domain out of scope. *)
Lemma is_valid_mezzofy_url_reads_netloc :
  is_valid_mezzofy_url (py "https://www.mezzofy.com:443/") = false
  /\ is_valid_mezzofy_url (py "https://WWW.MEZZOFY.COM/") = false.
Proof. repeat split; vm_compute; reflexivity. Qed.

(** C2 at the start URL it names: [https://notmezzofy.com] passes the
    validator, so a call with the default [max_pages] does not answer 400;
    it fetches that URL first. *)
Theorem C2_notmezzofy_is_fetched (w : World) :
  let req := mkCrawlRequest (Some (py "https://notmezzofy.com")) 20 in
  is_valid_mezzofy_url (effective_start_url req) = true
  /\ exists out w' tr,
      crawl req w = Some (out, w', EvFetch (py "https://notmezzofy.com") :: tr)
      /\ forall code detail, out <> HTTPException code detail.
Proof.
  intros req.
  assert (Hv : is_valid_mezzofy_url (effective_start_url req) = true)
    by (vm_compute; reflexivity).
  split; [exact Hv|].
  apply (crawl_fetches_start req w Hv). simpl. lia.
Qed.

End ScopeClaims.

(** ** Runs on the test bed *)

(** The end-to-end scenario: the seed matches two keywords and links to
    [/features] and to an external site; with [max_pages = 2] the crawl
    fetches the seed and [/features] only and saves the seed. *)
Example crawl_seed_scenario :
  exists pg,
    @crawl Fixture.lib Fixture.net (mkCrawlRequest None 2) tt
    = Some (Return 2 1, tt,
            [EvFetch (py "https://www.mezzofy.com"); EvStore pg true;
             EvFetch (py "https://www.mezzofy.com/features")])
    /\ page_keywords_matched pg = [py "coupon"; py "pricing"].
Proof. eexists. split; vm_compute; reflexivity. Qed.

Lemma C10_no_budget_no_pass_witness :
  @crawl Fixture.lib Fixture.net (mkCrawlRequest None 0) tt = Some (Return 0 0, tt, []).
Proof.
  apply (@C10_no_budget_no_pass Fixture.lib Fixture.net (mkCrawlRequest None 0) tt).
  - vm_compute. reflexivity.
  - simpl. lia.
Defined.

Lemma C4_visited_bound_witness :
  exists out w' tr,
    @crawl Fixture.lib Fixture.net (mkCrawlRequest None 2) tt = Some (out, w', tr)
    /\ forall v s, out = Return v s -> v <= 2.
Proof.
  apply (@C4_visited_bound Fixture.lib Fixture.net (mkCrawlRequest None 2) tt).
  simpl. lia.
Defined.

(** C4 as stated fails for a negative [max_pages]: the start URL is in
    scope, the call returns visited 0, and 0 is more than -1. *)
Lemma C4_counterexample :
  let req := mkCrawlRequest None (-1) in
  @is_valid_mezzofy_url Fixture.lib (effective_start_url req) = true
  /\ @crawl Fixture.lib Fixture.net req tt = Some (Return 0 0, tt, [])
  /\ ~ (0 <= max_pages req).
Proof.
  split; [vm_compute; reflexivity|]. split; [vm_compute; reflexivity|].
  simpl. lia.
Qed.

Lemma C6_fetch_failure_witness :
  @crawl Fixture.lib Fixture.offline (mkCrawlRequest None 20) tt
  = Some (Return 1 0, tt, [EvFetch (py "https://www.mezzofy.com")]).
Proof.
  apply (proj2 (proj2 (@C6_fetch_failure Fixture.lib Fixture.offline
                         (mkCrawlRequest None 20) tt))).
  - vm_compute. reflexivity.
  - simpl. lia.
  - reflexivity.
Defined.

Lemma C3_persistence_witness :
  exists out w' tr,
    @crawl Fixture.lib Fixture.net (mkCrawlRequest None 2) tt = Some (out, w', tr)
    /\ Forall (fun pg => page_keywords_matched pg <> []) (stored_pages tr)
    /\ forall v s, out = Return v s -> s = Z.of_nat (length (saved_pages tr)) /\ s <= v.
Proof.
  exact (proj2 (proj2 (@C3_persistence Fixture.lib Fixture.net (mkCrawlRequest None 2) tt))).
Defined.

Lemma C5_fetch_once_witness :
  (exists out w' tr,
      @crawl Fixture.lib Fixture.net (mkCrawlRequest None 2) tt = Some (out, w', tr)
      /\ NoDup (fetched_urls tr))
  /\ exists added,
      [py "https://www.mezzofy.com/features"] = [] ++ added /\ NoDup added.
Proof.
  pose proof (@C5_fetch_once Fixture.lib Fixture.net (mkCrawlRequest None 2) tt)
    as (_ & _ & Hcall & Hpass).
  split; [exact Hcall|].
  assert (Hbody :
    @crawl_body Fixture.lib Fixture.net (init_state (net := Fixture.net) BASE_DOMAIN tt)
    = (Normal,
       (@crawl_body Fixture.lib Fixture.net
          (init_state (net := Fixture.net) BASE_DOMAIN tt)).2))
    by (vm_compute; reflexivity).
  destruct (Hpass (init_state (net := Fixture.net) BASE_DOMAIN tt) BASE_DOMAIN []
              Fixture.seed_soup tt _ Normal _
              eq_refl (not_elem_of_empty _) eq_refl eq_refl Hbody)
    as (added & Hq & Hnd & _).
  exists added. split; [exact Hq | exact Hnd].
Defined.

(** * Further properties of the code *)

(** ** Link discovery *)

Section DiscoverFacts.
Context {lib : PyLib} {net : Net}.

(** X1: discovering the links of [l1 ++ l2] is discovering those of [l1]
    and then, unless [urljoin] raised, those of [l2] from the frontier so
    far; after a raise no further link is looked at. *)
Theorem discover_links_app (current : str) (l1 l2 : list str) (vis : gset str)
    (q : list str) :
  discover_links current (l1 ++ l2) vis q
  = match discover_links current l1 vis q with
    | (Normal, q1) => discover_links current l2 vis q1
    | (Raised, q1) => (Raised, q1)
    end.
Proof.
  revert q. induction l1 as [|a l1 IH]; intros q; cbn [discover_links app]; [reflexivity|].
  destruct (_ || _); [apply IH|].
  destruct (urljoin current (Str.strip a)); [apply IH | reflexivity].
Qed.

(** X2: the pass only appends to the frontier, and what it appends are
    distinct URLs, each the resolution of a resolvable [href] of the page,
    in scope, not visited and not already waiting. *)
Theorem discover_links_appends (current : str) (hrefs : list str) (vis : gset str)
    (q : list str) (c : Completion) (q' : list str) :
  discover_links current hrefs vis q = (c, q') ->
  exists added,
    q' = q ++ added
    /\ NoDup added
    /\ forall u, u ∈ added ->
         is_valid_mezzofy_url u = true /\ (u ∉ vis) /\ (u ∉ q)
         /\ exists a, a ∈ hrefs /\ resolvable a = true
                      /\ urljoin current (Str.strip a) = Some u.
Proof.
  revert q. induction hrefs as [|a hrefs IH]; intros q; cbn [discover_links].
  - intros [= _ <-]. exists []. rewrite app_nil_r.
    split; [reflexivity|]. split; [constructor|]. intros u Hu. inversion Hu.
  - destruct (Str.startswith (py "#") (Str.strip a)
              || Str.startswith (py "mailto:") (Str.strip a)) eqn:Hskip.
    + intros Hd. destruct (IH _ Hd) as (added & -> & Hnd & Hall).
      exists added. split; [reflexivity|]. split; [exact Hnd|].
      intros u Hu. destruct (Hall u Hu) as (? & ? & ? & a' & ? & ? & ?).
      repeat split; auto. exists a'. split; [right|]; auto.
    + destruct (urljoin current (Str.strip a)) as [absolute|] eqn:Hjoin.
      * intros Hd. destruct (IH _ Hd) as (added & -> & Hnd & Hall).
        assert (Hlift : forall u, u ∈ added ->
                  exists a', a' ∈ a :: hrefs /\ resolvable a' = true
                             /\ urljoin current (Str.strip a') = Some u).
        { intros u Hu. destruct (Hall u Hu) as (_ & _ & _ & a' & ? & ? & ?).
          exists a'. split; [right|]; auto. }
        destruct (enqueue_link_cases vis q absolute)
          as [[Heq _] | (Heq & Hv & Hnv & Hnq)]; rewrite Heq in *.
        -- exists added. split; [reflexivity|]. split; [exact Hnd|].
           intros u Hu. destruct (Hall u Hu) as (? & ? & ? & _).
           repeat split; auto.
        -- exists (absolute :: added). split; [rewrite <- app_assoc; reflexivity|].
           split.
           ++ apply NoDup_cons. split; [|exact Hnd].
              intros Hin. destruct (Hall _ Hin) as (_ & _ & Hnot & _).
              apply Hnot. apply elem_of_app. right. left.
           ++ intros u Hu. apply elem_of_cons in Hu as [-> | Hu].
              ** repeat split; auto. exists a. split; [left|].
                 split; [unfold resolvable; rewrite Hskip; reflexivity | exact Hjoin].
              ** destruct (Hall u Hu) as (? & ? & Hnot & _).
                 repeat split; auto.
                 intros Hin. apply Hnot. apply elem_of_app. left. exact Hin.
      * intros [= _ <-]. exists []. rewrite app_nil_r.
        split; [reflexivity|]. split; [constructor|]. intros u Hu. inversion Hu.
Qed.

(** X3: when the pass over the links ends normally, every resolvable
    [href] that resolves to an in-scope URL is accounted for: its URL is
    visited or waits in the frontier. *)
Theorem discover_links_complete (current : str) (hrefs : list str) (vis : gset str)
    (q q' : list str) :
  discover_links current hrefs vis q = (Normal, q') ->
  forall a u,
    a ∈ hrefs -> resolvable a = true ->
    urljoin current (Str.strip a) = Some u ->
    is_valid_mezzofy_url u = true ->
    u ∈ vis \/ u ∈ q'.
Proof.
  revert q. induction hrefs as [|a0 hrefs IH]; intros q Hd a u Ha Hres Hjoin Hv.
  - inversion Ha.
  - cbn [discover_links] in Hd. apply elem_of_cons in Ha as [-> | Ha].
    + unfold resolvable in Hres. apply negb_true_iff in Hres.
      rewrite Hres, Hjoin in Hd.
      destruct (discover_links_appends _ _ _ _ _ _ Hd) as (added & -> & _).
      destruct (enqueue_link_cases vis q u) as [[-> Hwhy] | (-> & _)].
      * destruct Hwhy as [Hinv | [Hin | Hin]]; [congruence | left; exact Hin |].
        right. apply elem_of_app. left. exact Hin.
      * right. rewrite !elem_of_app. left. right. left.
    + destruct (_ || _); [eapply IH; eassumption|].
      destruct (urljoin current (Str.strip a0)); [|discriminate].
      eapply IH; eassumption.
Qed.

(** X4: one [href] on which [urljoin] raises is enough to make the pass
    over the links raise. *)
Theorem discover_links_raises (current : str) (hrefs : list str) (vis : gset str)
    (q : list str) (a : str) :
  a ∈ hrefs -> resolvable a = true -> urljoin current (Str.strip a) = None ->
  (discover_links current hrefs vis q).1 = Raised.
Proof.
  revert q. induction hrefs as [|a0 hrefs IH]; intros q Ha Hres Hjoin.
  - inversion Ha.
  - cbn [discover_links]. apply elem_of_cons in Ha as [-> | Ha].
    + unfold resolvable in Hres. apply negb_true_iff in Hres.
      rewrite Hres, Hjoin. reflexivity.
    + destruct (_ || _); [apply IH; assumption|].
      destruct (urljoin current (Str.strip a0)); [apply IH; assumption | reflexivity].
Qed.

End DiscoverFacts.

(** ** The crawl: scope, counts and order *)

Section CrawlScopeFacts.
Context {lib : PyLib} {net : Net}.

Lemma save_page_stored (pg : Page) (s : Z) (w : World) (tr : list Event)
    (s' : Z) (w' : World) (tr' : list Event) :
  save_page pg s w tr = (s', w', tr') ->
  fetched_urls tr' = fetched_urls tr
  /\ (stored_pages tr' = stored_pages tr \/ stored_pages tr' = stored_pages tr ++ [pg]).
Proof.
  unfold save_page. destruct (page_keywords_matched pg).
  - intros [= _ _ <-]. auto.
  - destruct (create_document pg w) as [[|] w'']; intros [= _ _ <-];
      rewrite fetched_urls_app, stored_pages_app; simpl; rewrite app_nil_r; auto.
Qed.

Lemma scope_inv_init (start : str) (w : World) :
  is_valid_mezzofy_url start = true -> scope_inv (init_state start w).
Proof.
  intros Hv. constructor; simpl.
  - intros u Hu. apply list_elem_of_singleton in Hu. subst. exact Hv.
  - intros u Hu. inversion Hu.
  - exists []. split; [constructor | reflexivity].
Qed.

Lemma scope_inv_visit (st : LoopState) (current : str) (rest : list str)
    (w1 : World) :
  scope_inv st -> to_visit st = current :: rest ->
  scope_inv (mkLoopState rest ({[current]} ∪ visited st) (saved st) w1
               (trace st ++ [EvFetch current])).
Proof.
  intros [Hfr Hfe (us & Hsub & Hmap)] Hq. rewrite Hq in Hfr.
  constructor; simpl; rewrite ?fetched_urls_app, ?stored_pages_app; simpl;
    rewrite ?app_nil_r.
  - intros u Hu. apply Hfr. right. exact Hu.
  - intros u Hu. apply elem_of_app in Hu as [Hu | Hu]; [auto|].
    apply list_elem_of_singleton in Hu. subst. apply Hfr. left.
  - exists us. split; [apply sublist_inserts_r; exact Hsub | exact Hmap].
Qed.

Lemma crawl_body_scope_inv (st : LoopState) (c : Completion) (st' : LoopState) :
  crawl_body st = (c, st') -> scope_inv st -> scope_inv st'.
Proof.
  intros Hbody Hinv. pose proof Hinv as [Hfr Hfe Hfrom].
  crawl_body_cases Hbody.
  - exact Hinv.
  - constructor; simpl; auto. intros u Hu. apply Hfr. right. exact Hu.
  - (* full pass *)
    pose proof (scope_inv_visit st current rest w1 Hinv Hq) as [Hfr1 Hfe1 Hfrom1].
    simpl in Hfr1, Hfe1, Hfrom1.
    destruct (save_page_stored _ _ _ _ _ _ _ Hsave) as [Hf Hst].
    destruct (extract_info_fields _ _ _ Hext) as (Hurl & _).
    destruct (discover_links_appends _ _ _ _ _ _ Hdisc) as (added & -> & _ & Hadded).
    constructor; simpl.
    + intros u Hu. apply elem_of_app in Hu as [Hu | Hu]; [auto|].
      apply (Hadded u Hu).
    + rewrite Hf. exact Hfe1.
    + rewrite Hf. destruct Hst as [-> | ->]; [exact Hfrom1|].
      destruct Hfrom as (us & Hsub & Hmap).
      rewrite stored_pages_app, fetched_urls_app. simpl. rewrite app_nil_r.
      exists (us ++ [current]). split.
      * apply sublist_app; [exact Hsub | reflexivity].
      * rewrite !List.map_app, Hmap. simpl. rewrite Hurl. reflexivity.
  - apply scope_inv_visit; assumption.
  - apply scope_inv_visit; assumption.
Qed.

Lemma reachable_scope_inv (max_pages : Z) (st0 : LoopState) (c : Completion)
    (st : LoopState) :
  scope_inv st0 -> reachable max_pages st0 c st -> scope_inv st.
Proof.
  intros Hinit Hreach. induction Hreach as [|st c st' _ IH _ Hbody]; [exact Hinit|].
  eapply crawl_body_scope_inv; eassumption.
Qed.

Lemma visited_size_fetched (st : LoopState) :
  crawl_inv st -> size (visited st) = length (fetched_urls (trace st)).
Proof.
  intros [_ Hnd Hfv _ _ _].
  change (size (visited st)) with (length (elements (visited st))).
  apply Permutation_length. apply NoDup_Permutation.
  - apply NoDup_elements.
  - exact Hnd.
  - intros u. rewrite elem_of_elements. symmetry. apply Hfv.
Qed.

(** X5: whatever the pages link to, a crawl only ever fetches URLs that
    pass the validator. *)
Theorem crawl_fetches_only_in_scope (req : CrawlRequest) (w : World) :
  exists out w' tr,
    crawl req w = Some (out, w', tr)
    /\ forall u, u ∈ fetched_urls tr -> is_valid_mezzofy_url u = true.
Proof.
  destruct (crawl_returns req w) as [[[out w'] tr] Hr].
  exists out, w', tr. split; [exact Hr|].
  apply crawl_result in Hr as [(_ & _ & _ & ->) | (Hv & c & st & Hreach & _ & -> & _)].
  - intros u Hu. inversion Hu.
  - apply reachable_scope_inv in Hreach as [_ Hfe _]; [exact Hfe|].
    apply scope_inv_init. exact Hv.
Qed.

(** X6: the returned visited count is the number of fetches made. *)
Theorem crawl_visited_counts_fetches (req : CrawlRequest) (w : World) :
  exists out w' tr,
    crawl req w = Some (out, w', tr)
    /\ forall v s, out = Return v s -> v = Z.of_nat (length (fetched_urls tr)).
Proof.
  destruct (crawl_returns req w) as [[[out w'] tr] Hr].
  exists out, w', tr. split; [exact Hr|]. intros v s ->.
  apply crawl_result in Hr as [(_ & ? & _) | (_ & c & st & Hreach & _ & -> & Hc)];
    [discriminate|].
  destruct c; [|discriminate]. destruct Hc as [[= -> _] _].
  rewrite visited_size_fetched; [reflexivity|].
  eapply reachable_inv; [apply crawl_inv_init | exact Hreach].
Qed.

(** X7: within one crawl [create_document] is called at most once for a
    fetched URL and for nothing else: the [url] fields of the stored records
    are, in order, the [HttpUrl] texts of distinct fetched URLs.  Two records
    carry the same [url] only where two fetched URLs have the same [HttpUrl]
    text. *)
Theorem crawl_stores_fetched_once (req : CrawlRequest) (w : World) :
  exists out w' tr,
    crawl req w = Some (out, w', tr)
    /\ exists us,
        NoDup us
        /\ sublist us (fetched_urls tr)
        /\ List.map page_url (stored_pages tr) = List.map HttpUrl_text us
        /\ ((forall u v, u ∈ fetched_urls tr -> v ∈ fetched_urls tr ->
                        HttpUrl_text u = HttpUrl_text v -> u = v) ->
            NoDup (List.map page_url (stored_pages tr))).
Proof.
  destruct (crawl_returns req w) as [[[out w'] tr] Hr].
  exists out, w', tr. split; [exact Hr|].
  apply crawl_result in Hr as [(_ & _ & _ & ->) | (Hv & c & st & Hreach & _ & -> & _)].
  - exists []. repeat split; constructor.
  - pose proof (reachable_inv _ _ _ _ (crawl_inv_init _ _) Hreach) as [_ Hnd _ _ _ _].
    apply reachable_scope_inv in Hreach as [_ _ (us & Hsub & Hmap)];
      [|apply scope_inv_init; exact Hv].
    assert (Hndus : NoDup us) by (eapply sublist_NoDup; eassumption).
    exists us. split; [exact Hndus|]. split; [exact Hsub|]. split; [exact Hmap|].
    intros Hinj. rewrite Hmap.
    apply (NoDup_fmap_2_strong HttpUrl_text us); [|exact Hndus].
    intros u v Hu Hv' Heq. apply Hinj; [| |exact Heq].
    + eapply elem_of_sublist; eassumption.
    + eapply elem_of_sublist; eassumption.
Qed.

(** X8: a crawl that returns its counts stopped for one of two reasons: the
    frontier ran empty, or the visited count reached [max_pages] (0 when
    [max_pages] is negative). *)
Theorem crawl_stops_when (req : CrawlRequest) (w : World) (v s : Z) (w' : World)
    (tr : list Event) :
  crawl req w = Some (Return v s, w', tr) ->
  exists st,
    reachable (max_pages req) (init_state (effective_start_url req) w) Normal st
    /\ trace st = tr
    /\ v = Z.of_nat (size (visited st))
    /\ (to_visit st = [] \/ v = Z.max (max_pages req) 0).
Proof.
  intros Hr.
  apply crawl_result in Hr as [(_ & ? & _) | (_ & c & st & Hreach & _ & -> & Hc)];
    [discriminate|].
  destruct c; [|discriminate]. destruct Hc as [[= -> _] Hcond].
  exists st. repeat split; [exact Hreach|].
  pose proof (reachable_visited_bound _ _ _ _ Hreach) as Hb.
  unfold init_state in Hb. cbn [visited] in Hb. rewrite size_empty in Hb.
  unfold loop_cond in Hcond. destruct (to_visit st); [left; reflexivity|].
  simpl in Hcond. apply Z.ltb_ge in Hcond. right. lia.
Qed.

(** X9: the loop is first-in first-out.  Every pass fetches the head of the
    frontier (the already-visited branch of line 91 is never taken) and puts
    the newly discovered URLs behind those already waiting, so URLs are
    fetched in the order in which they were discovered. *)
Theorem crawl_pass_order (max_pages : Z) (start : str) (w : World)
    (st : LoopState) (c : Completion) (st' : LoopState) :
  reachable max_pages (init_state start w) Normal st ->
  loop_cond max_pages st = true ->
  crawl_body st = (c, st') ->
  exists current rest added,
    to_visit st = current :: rest
    /\ (current ∉ visited st)
    /\ fetched_urls (trace st') = fetched_urls (trace st) ++ [current]
    /\ to_visit st' = rest ++ added
    /\ discovery_order st' = discovery_order st ++ added.
Proof.
  intros Hreach Hcond Hbody.
  pose proof (reachable_inv _ _ _ _ (crawl_inv_init _ _) Hreach) as [[_ Hfresh] _ _ _ _ _].
  assert (Hgoal : forall current rest added,
             to_visit st = current :: rest -> (current ∉ visited st) ->
             fetched_urls (trace st') = fetched_urls (trace st) ++ [current] ->
             to_visit st' = rest ++ added ->
             exists current rest added,
               to_visit st = current :: rest
               /\ (current ∉ visited st)
               /\ fetched_urls (trace st') = fetched_urls (trace st) ++ [current]
               /\ to_visit st' = rest ++ added
               /\ discovery_order st' = discovery_order st ++ added).
  { intros current rest added Hq Hvis Hf Hq'. exists current, rest, added.
    repeat split; auto. unfold discovery_order.
    rewrite Hf, Hq', Hq, <- !app_assoc. reflexivity. }
  unfold loop_cond in Hcond.
  pose proof Hbody as Hb. crawl_body_cases Hb.
  - discriminate.
  - exfalso. apply (Hfresh current); [left | assumption].
  - destruct (save_page_stored _ _ _ _ _ _ _ Hsave) as [Hf _].
    destruct (discover_links_appends _ _ _ _ _ _ Hdisc) as (added & Hq' & _).
    apply (Hgoal current rest added); auto.
    simpl. rewrite Hf, fetched_urls_app. reflexivity.
  - apply (Hgoal current rest []); auto.
    + simpl. rewrite fetched_urls_app. reflexivity.
    + simpl. symmetry. apply app_nil_r.
  - apply (Hgoal current rest []); auto.
    + simpl. rewrite fetched_urls_app. reflexivity.
    + simpl. symmetry. apply app_nil_r.
Qed.

End CrawlScopeFacts.

(** ** The crawl: exceptions nothing catches *)

Section CrawlExceptionFacts.
Context {lib : PyLib} {net : Net}.

Lemma discover_links_raised_iff (current : str) (hrefs : list str) (vis : gset str)
    (q : list str) :
  (discover_links current hrefs vis q).1 = Raised
  <-> exists a, a ∈ hrefs /\ resolvable a = true
                /\ urljoin current (Str.strip a) = None.
Proof.
  revert q. induction hrefs as [|a0 hrefs IH]; intros q; cbn [discover_links].
  - split; [discriminate | intros (a & Ha & _); inversion Ha].
  - destruct (Str.startswith (py "#") (Str.strip a0)
              || Str.startswith (py "mailto:") (Str.strip a0)) eqn:Hskip.
    + rewrite IH. split.
      * intros (a & Ha & Hres & Hjoin). exists a. split; [right|]; auto.
      * intros (a & Ha & Hres & Hjoin). apply elem_of_cons in Ha as [-> | Ha].
        -- unfold resolvable in Hres. rewrite Hskip in Hres. discriminate.
        -- exists a. auto.
    + destruct (urljoin current (Str.strip a0)) as [absolute|] eqn:Hjoin0.
      * rewrite IH. split.
        -- intros (a & Ha & Hres & Hjoin). exists a. split; [right|]; auto.
        -- intros (a & Ha & Hres & Hjoin). apply elem_of_cons in Ha as [-> | Ha].
           ++ congruence.
           ++ exists a. auto.
      * split; [|reflexivity]. intros _. exists a0. split; [left|].
        split; [unfold resolvable; rewrite Hskip; reflexivity | exact Hjoin0].
Qed.

(** The ways a pass can end in an exception. *)
Lemma crawl_body_raised (st : LoopState) (c : Completion) (st' : LoopState) :
  crawl_body st = (c, st') -> c = Raised ->
  to_visit st = []
  \/ exists current rest soup w1,
       to_visit st = current :: rest
       /\ fetch_page current (world st) = (Some soup, w1)
       /\ (HttpUrl_validates current = false
           \/ exists a, a ∈ soup_anchors soup /\ resolvable a = true
                        /\ urljoin current (Str.strip a) = None).
Proof.
  intros Hbody Hc. crawl_body_cases Hbody; try discriminate.
  - left. reflexivity.
  - right. exists current, rest, soup, w1.
    split; [first [reflexivity | assumption]|]. split; [exact Hfetch|].
    right. apply (discover_links_raised_iff current (soup_anchors soup)
                    ({[current]} ∪ visited st) rest).
    rewrite Hdisc. exact Hc.
  - right. exists current, rest, soup, w1.
    split; [first [reflexivity | assumption]|]. split; [exact Hfetch|].
    left. unfold extract_info in Hext.
    destruct (HttpUrl_validates current); [discriminate | reflexivity].
Qed.

Lemma crawl_body_raises (st : LoopState) (current : str) (rest : list str)
    (soup : Soup) (w1 : World) :
  to_visit st = current :: rest ->
  current ∉ visited st ->
  fetch_page current (world st) = (Some soup, w1) ->
  HttpUrl_validates current = false
  \/ (exists a, a ∈ soup_anchors soup /\ resolvable a = true
                /\ urljoin current (Str.strip a) = None) ->
  (crawl_body st).1 = Raised.
Proof.
  intros Hq Hvis Hfetch Hbad. unfold crawl_body.
  rewrite Hq, (bool_decide_eq_false_2 _ Hvis), Hfetch. unfold extract_info.
  destruct (HttpUrl_validates current) eqn:Hval; [|reflexivity].
  destruct Hbad as [? | Hbad]; [discriminate|].
  destruct (save_page _ (saved st) w1 _) as [[s' w2] tr2].
  apply (discover_links_raised_iff current (soup_anchors soup)
           ({[current]} ∪ visited st) rest) in Hbad.
  destruct (discover_links current (soup_anchors soup) ({[current]} ∪ visited st) rest)
    as [c q]. exact Hbad.
Qed.

(** The loop is deterministic: started again in a state it passes through,
    it ends as it ends from the start. *)
Lemma reachable_loop_agrees (max_pages : Z) (st0 st : LoopState) (c : Completion) :
  reachable max_pages st0 c st -> c = Normal ->
  forall fuel r,
    crawl_loop max_pages fuel st0 = Some r ->
    exists fuel', crawl_loop max_pages fuel' st = Some r.
Proof.
  intros Hreach. induction Hreach as [|st c st' _ IH Hcond Hbody]; intros Hc fuel r Hr.
  - exists fuel. exact Hr.
  - subst c. destruct (IH eq_refl fuel r Hr) as [fuel' Hr'].
    destruct fuel' as [|fuel']; simpl in Hr'; rewrite Hcond in Hr'; [discriminate|].
    rewrite Hbody in Hr'. exists fuel'. exact Hr'.
Qed.

(** X10: a call ends in an uncaught exception exactly when some pass of
    its run fetches a page whose URL [Page(...)] rejects, or a page that
    holds a resolvable [href] on which [urljoin] raises.  A run that meets no
    such page ends in the 400 or in its counts, whatever fetches and stores
    fail on the way. *)
Theorem crawl_unhandled_iff (req : CrawlRequest) (w : World) :
  exists out w' tr,
    crawl req w = Some (out, w', tr)
    /\ (out = Unhandled
        <-> is_valid_mezzofy_url (effective_start_url req) = true
            /\ exists st current rest soup w1,
                reachable (max_pages req) (init_state (effective_start_url req) w)
                  Normal st
                /\ loop_cond (max_pages req) st = true
                /\ to_visit st = current :: rest
                /\ fetch_page current (world st) = (Some soup, w1)
                /\ (HttpUrl_validates current = false
                    \/ exists a, a ∈ soup_anchors soup /\ resolvable a = true
                                 /\ urljoin current (Str.strip a) = None)).
Proof.
  destruct (crawl_returns req w) as [[[out w'] tr] Hr].
  exists out, w', tr. split; [exact Hr|]. split.
  - intros ->.
    apply crawl_result in Hr as [(_ & ? & _) | (Hv & c & st' & Hreach & _ & _ & Hc)];
      [discriminate|].
    split; [exact Hv|].
    destruct c; [destruct Hc as [? _]; discriminate|].
    inversion Hreach as [|st c' st'' Hprev Hcond Hbody]; subst.
    destruct (crawl_body_raised _ _ _ Hbody eq_refl)
      as [Hempty | (current & rest & soup & w1 & Hq & Hfetch & Hbad)].
    + unfold loop_cond in Hcond. rewrite Hempty in Hcond. discriminate.
    + exists st, current, rest, soup, w1. auto.
  - intros (Hv & st & current & rest & soup & w1 & Hreach & Hcond & Hq & Hfetch & Hbad).
    pose proof (reachable_inv _ _ _ _ (crawl_inv_init _ _) Hreach)
      as [[_ Hfresh] _ _ _ _ _].
    assert (Hvis : current ∉ visited st) by (apply Hfresh; rewrite Hq; left).
    pose proof (crawl_body_raises st current rest soup w1 Hq Hvis Hfetch Hbad) as Hraise.
    destruct (crawl_body st) as [c1 st1] eqn:Hbody. simpl in Hraise. subst c1.
    unfold crawl, crawl_with in Hr. rewrite Hv in Hr. simpl in Hr.
    destruct (crawl_loop _ _ _) as [[c stf]|] eqn:Hloop; [|discriminate].
    destruct (reachable_loop_agrees _ _ _ _ Hreach eq_refl _ _ Hloop) as [fuel' Hagain].
    destruct fuel' as [|fuel']; simpl in Hagain; rewrite Hcond in Hagain; [discriminate|].
    rewrite Hbody in Hagain. injection Hagain as <- <-.
    injection Hr as <- _ _. reflexivity.
Qed.

(** X11: a single link on which [urljoin] raises aborts the whole crawl.
    If the start page is fetched and extracted and one of its resolvable
    [href]s makes [urljoin] raise, the call ends in an uncaught exception
    after that one fetch; the page has already been handed to the store when
    it matched a keyword. *)
Theorem crawl_unhandled_on_bad_link (req : CrawlRequest) (w w1 : World)
    (soup : Soup) (pg : Page) (a : str) :
  is_valid_mezzofy_url (effective_start_url req) = true ->
  1 <= max_pages req ->
  fetch_page (effective_start_url req) w = (Some soup, w1) ->
  extract_info (effective_start_url req) soup = Some pg ->
  a ∈ soup_anchors soup -> resolvable a = true ->
  urljoin (effective_start_url req) (Str.strip a) = None ->
  exists w' tr,
    crawl req w = Some (Unhandled, w', tr)
    /\ fetched_urls tr = [effective_start_url req]
    /\ stored_pages tr
       = match page_keywords_matched pg with [] => [] | _ => [pg] end.
Proof.
  intros Hvalid Hmax Hfetch Hext Ha Hres Hjoin.
  set (start := effective_start_url req) in *.
  assert (Hcond : loop_cond (max_pages req) (init_state start w) = true).
  { unfold loop_cond, init_state. cbn [to_visit visited]. rewrite size_empty.
    simpl. apply Z.ltb_lt. lia. }
  destruct (crawl_body_fetched (init_state start w) start [] soup w1 pg)
    as (c & q & Hdisc & Hnone & Hsome);
    [reflexivity | apply not_elem_of_empty | exact Hfetch | exact Hext |].
  pose proof (discover_links_raises start (soup_anchors soup)
                ({[start]} ∪ visited (init_state start w)) [] a Ha Hres Hjoin) as Hraise.
  rewrite Hdisc in Hraise. simpl in Hraise. subst c.
  assert (Hrun : forall st',
             crawl_body (init_state start w) = (Raised, st') ->
             crawl req w = Some (Unhandled, world st', trace st')).
  { intros st' Hbody. apply (crawl_with_agrees 1). unfold crawl_with.
    fold start. rewrite Hvalid. simpl. rewrite Hcond, Hbody. reflexivity. }
  destruct (page_keywords_matched pg) as [|k ks] eqn:Hk.
  - eexists _, _. split; [apply Hrun, Hnone; reflexivity|]. simpl. auto.
  - destruct (create_document pg w1) as [ok w2] eqn:Hcreate.
    eexists _, _. split; [apply Hrun, (Hsome ltac:(discriminate) ok w2 eq_refl)|].
    simpl. auto.
Qed.

(** X12: a start URL that the validator accepts and [Page.url] rejects ends
    the call in an uncaught exception as soon as its page has been fetched:
    nothing is stored and no link is followed. *)
Theorem crawl_unhandled_on_rejected_url (req : CrawlRequest) (w w1 : World)
    (soup : Soup) :
  is_valid_mezzofy_url (effective_start_url req) = true ->
  1 <= max_pages req ->
  fetch_page (effective_start_url req) w = (Some soup, w1) ->
  HttpUrl_validates (effective_start_url req) = false ->
  crawl req w = Some (Unhandled, w1, [EvFetch (effective_start_url req)]).
Proof.
  intros Hvalid Hmax Hfetch Hrej.
  set (start := effective_start_url req) in *.
  apply (crawl_with_agrees 1). unfold crawl_with. fold start. rewrite Hvalid. simpl.
  assert (Hcond : loop_cond (max_pages req) (init_state start w) = true).
  { unfold loop_cond, init_state. cbn [to_visit visited]. rewrite size_empty.
    simpl. apply Z.ltb_lt. lia. }
  rewrite Hcond. unfold crawl_body. cbn [init_state to_visit visited world trace saved].
  rewrite bool_decide_eq_false_2 by apply not_elem_of_empty.
  rewrite Hfetch. unfold extract_info. rewrite Hrej. reflexivity.
Qed.

(** X13: a request without [start_url], or with an empty one, crawls from
    [BASE_DOMAIN], which is in scope: such a request never gets the 400. *)
Theorem crawl_default_start (max_pages : Z) (w : World) :
  crawl (mkCrawlRequest (Some []) max_pages) w = crawl (mkCrawlRequest None max_pages) w
  /\ exists out w' tr,
      crawl (mkCrawlRequest None max_pages) w = Some (out, w', tr)
      /\ forall code detail, out <> HTTPException code detail.
Proof.
  split; [reflexivity|].
  destruct (crawl_returns (mkCrawlRequest None max_pages) w) as [[[out w'] tr] Hr].
  exists out, w', tr. split; [exact Hr|]. intros code detail ->.
  apply crawl_result in Hr as [(Hv & _) | (_ & c & st & _ & _ & _ & Hc)].
  - vm_compute in Hv. discriminate.
  - destruct c; [destruct Hc as [? _]|]; discriminate.
Qed.

End CrawlExceptionFacts.

Lemma crawl_stops_when_witness :
  exists st,
    @reachable Fixture.lib Fixture.net 2
      (init_state (net := Fixture.net) BASE_DOMAIN tt) Normal st
    /\ length (trace st) = 3%nat
    /\ (to_visit st = [] \/ 2 = Z.max 2 0).
Proof.
  destruct (@crawl_stops_when Fixture.lib Fixture.net (mkCrawlRequest None 2) tt
              2 1 tt _ eq_refl) as (st & Hreach & Htr & _ & Hstop).
  exists st. split; [exact Hreach|]. split; [rewrite Htr; reflexivity | exact Hstop].
Defined.

Lemma crawl_pass_order_witness :
  let st := init_state (net := Fixture.net) BASE_DOMAIN tt in
  let st' := (@crawl_body Fixture.lib Fixture.net st).2 in
  exists current rest added,
    to_visit st = current :: rest
    /\ (current ∉ visited st)
    /\ fetched_urls (trace st') = fetched_urls (trace st) ++ [current]
    /\ to_visit st' = rest ++ added
    /\ discovery_order st' = discovery_order st ++ added.
Proof.
  intros st st'.
  apply (@crawl_pass_order Fixture.lib Fixture.net 2 BASE_DOMAIN tt st
           (@crawl_body Fixture.lib Fixture.net st).1 st').
  - constructor.
  - reflexivity.
  - apply surjective_pairing.
Defined.

Lemma crawl_unhandled_iff_witness :
  ~ exists st current rest soup w1,
      @reachable CarefulFixture.lib Fixture.net 2
        (init_state (net := Fixture.net) BASE_DOMAIN tt) Normal st
      /\ @loop_cond Fixture.net 2 st = true
      /\ to_visit st = current :: rest
      /\ @fetch_page CarefulFixture.lib Fixture.net current (world st) = (Some soup, w1)
      /\ (@HttpUrl_validates CarefulFixture.lib current = false
          \/ exists a, a ∈ soup_anchors soup /\ @resolvable a = true
                       /\ @urljoin CarefulFixture.lib current (Str.strip a) = None).
Proof.
  destruct (@crawl_unhandled_iff CarefulFixture.lib Fixture.net (mkCrawlRequest None 2) tt)
    as (out & w' & tr & Hr & Hiff).
  assert (Hrun : exists tr0,
             @crawl CarefulFixture.lib Fixture.net (mkCrawlRequest None 2) tt
             = Some (Return 2 1, tt, tr0))
    by (eexists; vm_compute; reflexivity).
  destruct Hrun as [tr0 Hrun]. rewrite Hrun in Hr. injection Hr as <- _ _.
  intros Hbad. assert (Hno : Return 2 1 = Unhandled); [|discriminate].
  apply Hiff. split; [vm_compute; reflexivity | exact Hbad].
Defined.

Lemma crawl_unhandled_on_bad_link_witness :
  exists w' tr,
    @crawl BrittleFixture.lib BrittleFixture.net (mkCrawlRequest None 5) tt
    = Some (Unhandled, w', tr)
    /\ fetched_urls tr = [BASE_DOMAIN]
    /\ length (stored_pages tr) = 1%nat.
Proof.
  destruct (@crawl_unhandled_on_bad_link BrittleFixture.lib BrittleFixture.net
              (mkCrawlRequest None 5) tt tt BrittleFixture.bad_soup _ (py "//[")
              eq_refl ltac:(simpl; lia) eq_refl eq_refl
              ltac:(right; left) eq_refl eq_refl)
    as (w' & tr & Hr & Hf & Hs).
  exists w', tr. split; [exact Hr|]. split; [exact Hf|]. rewrite Hs. reflexivity.
Defined.

Lemma crawl_unhandled_on_rejected_url_witness :
  @crawl BrittleFixture.lib BrittleFixture.net
    (mkCrawlRequest (Some BrittleFixture.rejected_url) 5) tt
  = Some (Unhandled, tt, [EvFetch BrittleFixture.rejected_url]).
Proof.
  apply (@crawl_unhandled_on_rejected_url BrittleFixture.lib BrittleFixture.net
           (mkCrawlRequest (Some BrittleFixture.rejected_url) 5) tt tt
           BrittleFixture.bad_soup).
  - vm_compute. reflexivity.
  - simpl. lia.
  - reflexivity.
  - reflexivity.
Defined.

(** ** [extract_info]: the ends of the title and of the snippet *)

Module StripFacts.

Lemma lstrip_by_nil_iff (drop : codepoint -> bool) (s : str) :
  Str.lstrip_by drop s = [] <-> forallb drop s = true.
Proof.
  induction s as [|a s IH]; simpl; [tauto|].
  destruct (drop a); simpl; [exact IH|]. split; discriminate.
Qed.

Lemma rstrip_by_prefix (drop : codepoint -> bool) (s : str) :
  exists r, s = Str.rstrip_by drop s ++ r /\ Forall (fun c => drop c = true) r.
Proof.
  unfold Str.rstrip_by.
  destruct (StrFacts.lstrip_by_decompose drop (rev s)) as (l & Hl & Hall).
  exists (rev l). split; [|apply Forall_rev; exact Hall].
  rewrite <- rev_app_distr, <- Hl, rev_involutive. reflexivity.
Qed.

Lemma strip_nil_iff (s : str) :
  Str.strip s = [] <-> forallb Str.isspace s = true.
Proof.
  unfold Str.strip, Str.rstrip_by. split.
  - intros Hnil. apply lstrip_by_nil_iff.
    apply (f_equal (@rev N)) in Hnil. rewrite rev_involutive in Hnil. simpl in Hnil.
    apply lstrip_by_nil_iff in Hnil.
    destruct (Str.lstrip_by Str.isspace s) as [|c t] eqn:Ht; [reflexivity|].
    pose proof (StrFacts.lstrip_by_head _ _ _ _ Ht) as Hc.
    rewrite forallb_forall in Hnil.
    rewrite (Hnil c) in Hc; [discriminate|].
    apply in_rev. rewrite rev_involutive. left. reflexivity.
  - intros Hall. apply lstrip_by_nil_iff in Hall. rewrite Hall. reflexivity.
Qed.

Lemma strip_no_leading (s : str) (c : codepoint) (t : str) :
  Str.strip s = c :: t -> Str.isspace c = false.
Proof.
  unfold Str.strip. intros Hs.
  destruct (rstrip_by_prefix Str.isspace (Str.lstrip_by Str.isspace s)) as (r & Hr & _).
  rewrite Hs in Hr. simpl in Hr.
  eapply StrFacts.lstrip_by_head. exact Hr.
Qed.

Lemma strip_no_trailing (s : str) (c : codepoint) (t : str) :
  Str.strip s = t ++ [c] -> Str.isspace c = false.
Proof.
  unfold Str.strip, Str.rstrip_by. intros Hs.
  apply (f_equal (@rev N)) in Hs. rewrite rev_involutive, rev_app_distr in Hs.
  simpl in Hs. eapply StrFacts.lstrip_by_head. exact Hs.
Qed.

End StripFacts.

Section ExtractEnds.
Context {lib : PyLib}.

(** X14: an extracted title is the title element's string with a run of
    whitespace taken off each end and nothing else: it neither starts nor
    ends with a whitespace character. *)
Theorem extract_title_trimmed (url : str) (soup : Soup) (pg : Page) (s t : str) :
  extract_info url soup = Some pg ->
  soup_title soup = Some (Some s) ->
  page_title pg = Some t ->
  (exists l r, s = l ++ t ++ r
               /\ Forall (fun c => Str.isspace c = true) l
               /\ Forall (fun c => Str.isspace c = true) r)
  /\ (forall c t', t = c :: t' -> Str.isspace c = false)
  /\ (forall c t', t = t' ++ [c] -> Str.isspace c = false).
Proof.
  intros Hpg Hs Ht.
  destruct (extract_info_fields _ _ _ Hpg) as (_ & Htitle & _).
  rewrite Htitle in Ht. unfold extract_title in Ht. rewrite Hs in Ht.
  destruct (Str.truthy s); [|discriminate]. injection Ht as <-.
  split; [apply StrFacts.strip_decompose|]. split.
  - intros c t'. apply StripFacts.strip_no_leading.
  - intros c t'. apply StripFacts.strip_no_trailing.
Qed.

(** X15: the title, and likewise the snippet, is present but empty exactly
    when the element's text is non-empty and holds nothing but whitespace. *)
Theorem extract_empty_string_iff (url : str) (soup : Soup) (pg : Page) :
  extract_info url soup = Some pg ->
  (page_title pg = Some []
   <-> exists s, soup_title soup = Some (Some s) /\ s <> []
                 /\ forallb Str.isspace s = true)
  /\ (page_snippet pg = Some []
      <-> exists text, soup_first_p soup = Some text /\ text <> []
                       /\ forallb Str.isspace text = true).
Proof.
  intros Hpg.
  destruct (extract_info_fields _ _ _ Hpg) as (_ & -> & _ & _ & -> & _).
  unfold extract_title, extract_snippet. split.
  - destruct (soup_title soup) as [[s|]|].
    + destruct s as [|c s]; simpl.
      * split; [discriminate | intros (s' & [= <-] & Hne & _); contradiction].
      * split.
        -- intros [= Hnil]. exists (c :: s). split; [reflexivity|].
           split; [discriminate | apply StripFacts.strip_nil_iff; exact Hnil].
        -- intros (s' & [= <-] & _ & Hall). f_equal.
           apply StripFacts.strip_nil_iff. exact Hall.
    + split; [discriminate | intros (s' & Hs & _); discriminate].
    + split; [discriminate | intros (s' & Hs & _); discriminate].
  - destruct (soup_first_p soup) as [text|].
    + destruct text as [|c text]; simpl Str.truthy; cbv iota.
      * split; [discriminate | intros (s' & [= <-] & Hne & _); contradiction].
      * split.
        -- intros [= Hnil]. exists (c :: text). split; [reflexivity|].
           split; [discriminate|]. apply StripFacts.strip_nil_iff.
           destruct (Str.strip (c :: text)); [reflexivity | discriminate].
        -- intros (s' & [= <-] & _ & Hall). f_equal.
           apply StripFacts.strip_nil_iff in Hall. rewrite Hall. reflexivity.
    + split; [discriminate | intros (s' & Hs & _); discriminate].
Qed.

(** X16: a snippet is a piece of the first paragraph's text that starts at
    its first non-whitespace character; when it is shorter than 240 code
    points, nothing but whitespace follows it, so a short paragraph is kept
    whole. *)
Theorem extract_snippet_piece (url : str) (soup : Soup) (pg : Page) (text t : str) :
  extract_info url soup = Some pg ->
  soup_first_p soup = Some text ->
  page_snippet pg = Some t ->
  exists l rest,
    text = l ++ t ++ rest
    /\ Forall (fun c => Str.isspace c = true) l
    /\ (forall c t', t = c :: t' -> Str.isspace c = false)
    /\ ((length t < 240)%nat -> Forall (fun c => Str.isspace c = true) rest).
Proof.
  intros Hpg Htext Ht.
  destruct (extract_info_fields _ _ _ Hpg) as (_ & _ & _ & _ & Hsn & _).
  rewrite Hsn in Ht. unfold extract_snippet in Ht. rewrite Htext in Ht.
  destruct (Str.truthy text); [|discriminate]. injection Ht as <-.
  destruct (StrFacts.strip_decompose text) as (l & r & Hdec & Hl & Hr).
  exists l, (skipn 240 (Str.strip text) ++ r). split; [|split; [exact Hl|split]].
  - rewrite (app_assoc (firstn 240 (Str.strip text))), firstn_skipn. exact Hdec.
  - intros c t' Heq. destruct (Str.strip text) as [|c0 u] eqn:Hs; [discriminate|].
    simpl in Heq. injection Heq as <- _.
    eapply StripFacts.strip_no_leading. exact Hs.
  - intros Hlen. rewrite length_firstn in Hlen.
    rewrite skipn_all2 by lia. exact Hr.
Qed.

(** X17: description and preview image are the [content] attributes as
    they stand (not stripped, an empty attribute kept): each is absent exactly
    when its meta tag is missing or has no [content] attribute. *)
Theorem extract_meta_fields (url : str) (soup : Soup) (pg : Page) :
  extract_info url soup = Some pg ->
  (forall c, soup_meta_description soup = Some (Some c) -> page_description pg = Some c)
  /\ (page_description pg = None
      <-> soup_meta_description soup = None \/ soup_meta_description soup = Some None)
  /\ (forall c, soup_og_image soup = Some (Some c) -> page_image pg = Some c)
  /\ (page_image pg = None
      <-> soup_og_image soup = None \/ soup_og_image soup = Some None).
Proof.
  intros Hpg.
  destruct (extract_info_fields _ _ _ Hpg) as (_ & _ & -> & _ & _ & ->).
  unfold extract_description, extract_image.
  destruct (soup_meta_description soup) as [[d|]|];
    destruct (soup_og_image soup) as [[i|]|];
    repeat split; try discriminate; try tauto; try congruence;
    intros [? | ?]; discriminate.
Qed.

End ExtractEnds.

Lemma extract_title_trimmed_witness :
  exists pg,
    extract_info (lib := Fixture.lib) BASE_DOMAIN Fixture.seed_soup = Some pg
    /\ forall c t', py "Mezzofy Pricing" = t' ++ [c] -> Str.isspace c = false.
Proof.
  eexists. split; [reflexivity|].
  exact (proj2 (proj2 (extract_title_trimmed (lib := Fixture.lib) BASE_DOMAIN
                         Fixture.seed_soup _ (py "Mezzofy Pricing") (py "Mezzofy Pricing")
                         eq_refl eq_refl eq_refl))).
Defined.

Lemma extract_empty_string_iff_witness :
  exists pg,
    extract_info (lib := Fixture.lib) BASE_DOMAIN Fixture.blank_title_soup = Some pg
    /\ page_title pg = Some [].
Proof.
  eexists. split; [reflexivity|].
  apply (proj1 (extract_empty_string_iff (lib := Fixture.lib) BASE_DOMAIN
                  Fixture.blank_title_soup _ eq_refl)).
  exists (py "   "). split; [reflexivity|]. split; [discriminate | reflexivity].
Defined.

Lemma extract_snippet_piece_witness :
  exists l rest,
    py "  Great pricing and coupon deals  "
    = l ++ py "Great pricing and coupon deals" ++ rest
    /\ Forall (fun c => Str.isspace c = true) l.
Proof.
  destruct (extract_snippet_piece (lib := Fixture.lib) BASE_DOMAIN Fixture.seed_soup
              _ (py "  Great pricing and coupon deals  ")
              (py "Great pricing and coupon deals") eq_refl eq_refl eq_refl)
    as (l & rest & Hdec & Hl & _).
  exists l, rest. split; [exact Hdec | exact Hl].
Defined.

Lemma extract_meta_fields_witness :
  exists pg,
    extract_info (lib := Fixture.lib) BASE_DOMAIN Fixture.seed_soup = Some pg
    /\ page_description pg = Some (py "Coupons for merchants")
    /\ page_image pg = None.
Proof.
  eexists. split; [reflexivity|].
  pose proof (extract_meta_fields (lib := Fixture.lib) BASE_DOMAIN Fixture.seed_soup
                _ eq_refl) as (Hd & _ & _ & Hi).
  split; [apply Hd; reflexivity | apply Hi; left; reflexivity].
Defined.

(** ** The validator on plainly written URLs *)

Module UrlFacts.

Lemma firstn_length_app (a b : str) : firstn (length a) (a ++ b) = a.
Proof. induction a as [|x a IH]; simpl; [destruct b; reflexivity | f_equal; exact IH]. Qed.

Lemma skipn_length_app (a b : str) : skipn (length a) (a ++ b) = b.
Proof. induction a as [|x a IH]; simpl; [reflexivity | exact IH]. Qed.

Lemma remove_char_app (c : codepoint) (a b : str) :
  Str.remove_char c (a ++ b) = Str.remove_char c a ++ Str.remove_char c b.
Proof. apply List.filter_app. Qed.

Lemma remove_char_id (c : codepoint) (s : str) :
  forallb (fun a => negb (N.eqb a c)) s = true -> Str.remove_char c s = s.
Proof.
  unfold Str.remove_char. induction s as [|a s IH]; simpl; [reflexivity|].
  intros Hall. apply andb_true_iff in Hall as [Ha Hs]. rewrite Ha, IH by exact Hs.
  reflexivity.
Qed.

Lemma find_app_absent (c : codepoint) (a b : str) :
  forallb (fun x => negb (N.eqb x c)) a = true ->
  Str.find c (a ++ b) = option_map (Nat.add (length a)) (Str.find c b).
Proof.
  induction a as [|x a IH]; simpl.
  - intros _. destruct (Str.find c b); reflexivity.
  - intros Hall. apply andb_true_iff in Hall as [Hx Ha].
    apply negb_true_iff in Hx. rewrite Hx, IH by exact Ha.
    destruct (Str.find c b); reflexivity.
Qed.

Lemma forallb_weaken (P Q : codepoint -> bool) (s : str) :
  (forall c, P c = true -> Q c = true) -> forallb P s = true -> forallb Q s = true.
Proof.
  intros HPQ. rewrite !forallb_forall. intros Hall c Hc. apply HPQ, Hall, Hc.
Qed.

Lemma scheme_char_plain (c : codepoint) :
  UrlParse.scheme_char c = true ->
  (32 < c)%N /\ c <> 58%N /\ c <> 9%N /\ c <> 10%N /\ c <> 13%N.
Proof.
  unfold UrlParse.scheme_char, Str.is_ascii_alpha, Str.is_ascii_digit.
  rewrite !orb_true_iff, !andb_true_iff, !N.leb_le, !N.eqb_eq. lia.
Qed.

Lemma plain_netloc_char (nl : str) (c : codepoint) :
  plain_netloc nl = true -> In c nl ->
  (c < 128)%N /\ c <> 9%N /\ c <> 10%N /\ c <> 13%N /\ c <> 35%N /\ c <> 47%N
  /\ c <> 63%N /\ c <> 91%N /\ c <> 93%N.
Proof.
  unfold plain_netloc. rewrite forallb_forall. intros Hall Hc.
  specialize (Hall c Hc). apply andb_true_iff in Hall as [Hlt Hno].
  apply N.ltb_lt in Hlt. apply negb_true_iff in Hno. simpl in Hno.
  rewrite !orb_false_iff, !N.eqb_neq in Hno. tauto.
Qed.

Lemma plain_netloc_lacks (nl : str) (c : codepoint) :
  plain_netloc nl = true ->
  In c [9; 10; 13; 35; 47; 63; 91; 93]%N ->
  forallb (fun a => negb (N.eqb a c)) nl = true.
Proof.
  intros Hnl Hc. apply forallb_forall. intros a Ha.
  apply negb_true_iff, N.eqb_neq. intros ->.
  pose proof (plain_netloc_char nl c Hnl Ha) as Hno.
  simpl in Hc. intuition congruence.
Qed.

Lemma contains_char_absent (c : codepoint) (s : str) :
  forallb (fun a => negb (N.eqb a c)) s = true -> Str.contains_char c s = false.
Proof.
  unfold Str.contains_char. induction s as [|a s IH]; simpl; [reflexivity|].
  intros Hall. apply andb_true_iff in Hall as [Ha Hs].
  apply negb_true_iff in Ha. rewrite N.eqb_sym, Ha, IH by exact Hs. reflexivity.
Qed.

(** The tail of a plain URL keeps its shape when tabs and line breaks are
    taken out. *)
Lemma plain_tail_remove (c : codepoint) (p : str) :
  In c [9; 10; 13]%N -> plain_tail p = true ->
  plain_tail (Str.remove_char c p) = true.
Proof.
  intros Hc. destruct p as [|d p]; [reflexivity|]. simpl.
  rewrite !orb_true_iff, !N.eqb_eq. intros Hd.
  assert (Hne : N.eqb d c = false).
  { apply N.eqb_neq. simpl in Hc. intuition congruence. }
  rewrite Hne. simpl. rewrite !orb_true_iff, !N.eqb_eq. exact Hd.
Qed.

Lemma splitnetloc_plain (nl tail : str) :
  plain_netloc nl = true -> plain_tail tail = true ->
  UrlParse._splitnetloc (47 :: 47 :: nl ++ tail)%N 2 = (nl, tail).
Proof.
  intros Hnl Htail. unfold UrlParse._splitnetloc.
  assert (Hfind : forall c, In c [47; 63; 35]%N ->
             Str.find_from c (47 :: 47 :: nl ++ tail)%N 2
             = option_map (fun k => (2 + length nl + k)%nat) (Str.find c tail)).
  { intros c Hc. unfold Str.find_from. cbn [skipn]. rewrite skipn_O.
    rewrite find_app_absent.
    - destruct (Str.find c tail); simpl; [f_equal; lia | reflexivity].
    - apply plain_netloc_lacks; [exact Hnl|]. simpl in Hc |- *. tauto. }
  change (py "/?#") with [47; 63; 35]%N. cbn [fold_left].
  rewrite !Hfind by (simpl; tauto).
  match goal with
  | |- (Str.slice _ 2 ?d, _) = _ =>
      assert (Hd : d = (2 + length nl)%nat)
  end.
  { cbn [length]. rewrite length_app.
    destruct tail as [|d tail].
    - simpl. lia.
    - simpl in Htail. rewrite !orb_true_iff, !N.eqb_eq in Htail.
      cbn [Str.find].
      destruct (N.eqb_spec d 47), (N.eqb_spec d 63), (N.eqb_spec d 35);
        try (exfalso; intuition congruence);
        destruct (Str.find 47 tail), (Str.find 63 tail), (Str.find 35 tail);
        simpl; lia. }
  rewrite Hd. unfold Str.slice.
  replace (2 + length nl - 2)%nat with (length nl) by lia.
  cbn [skipn Nat.add]. rewrite skipn_O, firstn_length_app, skipn_length_app. reflexivity.
Qed.

End UrlFacts.

Lemma skipn_past_separator (a b : str) (x : codepoint) :
  skipn (S (length a)) (a ++ x :: b) = b.
Proof. induction a as [|y a IH]; simpl; [reflexivity | exact IH]. Qed.

Section PlainUrls.
Context {lib : PyLib}.

Lemma remove_char_plain (b : codepoint) (s nl tail : str) :
  In b [9; 10; 13]%N ->
  forallb UrlParse.scheme_char s = true -> plain_netloc nl = true ->
  Str.remove_char b (s ++ [58; 47; 47]%N ++ nl ++ tail)
  = s ++ [58; 47; 47]%N ++ nl ++ Str.remove_char b tail.
Proof.
  intros Hb Hs Hnl. rewrite !UrlFacts.remove_char_app.
  rewrite (UrlFacts.remove_char_id b s), (UrlFacts.remove_char_id b nl).
  - f_equal. f_equal. simpl in Hb.
    destruct Hb as [<- | [<- | [<- | []]]]; reflexivity.
  - apply UrlFacts.plain_netloc_lacks; [exact Hnl|]. simpl in Hb |- *. tauto.
  - eapply UrlFacts.forallb_weaken; [|exact Hs].
    intros c Hc. apply UrlFacts.scheme_char_plain in Hc.
    apply negb_true_iff, N.eqb_neq. simpl in Hb. intuition congruence.
Qed.

(** On a plainly written URL the parse gives the lower-cased scheme and the
    netloc as written. *)
Lemma urlparse_plain (s nl tail : str) :
  plain_scheme s = true -> plain_netloc nl = true -> plain_tail tail = true ->
  UrlParse.urlparse (s ++ py "://" ++ nl ++ tail)
  = Some (UrlParse.mkParseResult (Str.lower_ascii s) nl).
Proof.
  intros Hs Hnl Ht. unfold plain_scheme in Hs.
  destruct s as [|c s]; [discriminate|].
  apply andb_true_iff in Hs as [Halpha Hsch].
  change (py "://") with [58; 47; 47]%N.
  set (tail' := Str.remove_char 10 (Str.remove_char 13 (Str.remove_char 9 tail))).
  assert (Ht' : plain_tail tail' = true).
  { subst tail'. repeat apply UrlFacts.plain_tail_remove; simpl; auto. }
  assert (Hc : UrlParse.scheme_char c = true).
  { simpl in Hsch. apply andb_true_iff in Hsch as [? _]. assumption. }
  assert (Hclean :
    fold_left (fun u b => Str.remove_char b u) UrlParse.UNSAFE_URL_BYTES_TO_REMOVE
      (Str.lstrip_by UrlParse.c0_control_or_space
         ((c :: s) ++ [58; 47; 47]%N ++ nl ++ tail))
    = (c :: s) ++ [58; 47; 47]%N ++ nl ++ tail').
  { rewrite <- app_comm_cons. cbn [Str.lstrip_by].
    replace (UrlParse.c0_control_or_space c) with false.
    2:{ symmetry. apply N.leb_gt. apply UrlFacts.scheme_char_plain in Hc. lia. }
    rewrite app_comm_cons.
    unfold UrlParse.UNSAFE_URL_BYTES_TO_REMOVE. cbn [fold_left].
    rewrite !remove_char_plain by (simpl; auto). reflexivity. }
  unfold UrlParse.urlparse. rewrite Hclean.
  assert (Hfind : Str.find 58 ((c :: s) ++ [58; 47; 47]%N ++ nl ++ tail')
                  = Some (S (length s))).
  { rewrite UrlFacts.find_app_absent.
    - simpl. f_equal. lia.
    - eapply UrlFacts.forallb_weaken; [|exact Hsch].
      intros x Hx. apply UrlFacts.scheme_char_plain in Hx.
      apply negb_true_iff, N.eqb_neq. intuition congruence. }
  rewrite Hfind.
  change (S (length s)) with (length (c :: s)).
  rewrite UrlFacts.firstn_length_app.
  cbn [app]. rewrite Halpha, Hsch. cbn [andb].
  rewrite (skipn_past_separator (c :: s) (47 :: 47 :: nl ++ tail')%N 58%N
             : skipn (S (length (c :: s))) (c :: s ++ 58 :: 47 :: 47 :: nl ++ tail')%N = _).
  rewrite bool_decide_eq_true_2 by reflexivity.
  rewrite (UrlFacts.splitnetloc_plain nl tail' Hnl Ht').
  rewrite !UrlFacts.contains_char_absent
    by (apply UrlFacts.plain_netloc_lacks; [exact Hnl | simpl; tauto]).
  cbn [andb orb negb].
  unfold UrlParse._checknetloc.
  replace (Str.isascii nl) with true.
  2:{ symmetry. unfold Str.isascii. apply forallb_forall. intros x Hx.
      apply N.ltb_lt. apply (UrlFacts.plain_netloc_char nl x Hnl Hx). }
  rewrite orb_true_r. reflexivity.
Qed.

(** X18: on a plainly written URL the validator decides by two tests only:
    the netloc, exactly as written (port, user info and letter case
    included), ends with the characters [mezzofy.com], and the scheme, read
    without regard to case, is [http] or [https]. *)
Theorem is_valid_plain_url (s nl tail : str) :
  plain_scheme s = true -> plain_netloc nl = true -> plain_tail tail = true ->
  is_valid_mezzofy_url (s ++ py "://" ++ nl ++ tail)
  = Str.endswith (py "mezzofy.com") nl
    && bool_decide (Str.lower_ascii s ∈ [py "http"; py "https"]).
Proof.
  intros Hs Hnl Ht. unfold is_valid_mezzofy_url.
  rewrite (urlparse_plain s nl tail Hs Hnl Ht). reflexivity.
Qed.

Lemma plain_netloc_app (a b : str) :
  plain_netloc (a ++ b) = plain_netloc a && plain_netloc b.
Proof. apply forallb_app. Qed.

Lemma plain_netloc_digits (p : str) :
  forallb Str.is_ascii_digit p = true -> plain_netloc p = true.
Proof.
  apply UrlFacts.forallb_weaken. intros x Hx. unfold Str.is_ascii_digit in Hx.
  apply andb_true_iff in Hx as [Hlo Hhi].
  apply N.leb_le in Hlo. apply N.leb_le in Hhi.
  apply andb_true_iff. split; [apply N.ltb_lt; lia|].
  apply negb_true_iff. simpl. rewrite !orb_false_iff, !N.eqb_neq. lia.
Qed.

Lemma endswith_last_differs (suf s : str) (a b : codepoint) :
  a <> b -> Str.endswith (suf ++ [a]) (s ++ [b]) = false.
Proof.
  intros Hab. unfold Str.endswith. rewrite !rev_app_distr. simpl.
  apply N.eqb_neq in Hab. rewrite Hab. reflexivity.
Qed.

(** X19: a plainly written URL that names a port is never in scope,
    whatever its host: the netloc then ends with a digit. *)
Theorem is_valid_rejects_port (s host port tail : str) (d : codepoint) :
  plain_scheme s = true -> plain_netloc host = true ->
  forallb Str.is_ascii_digit (port ++ [d]) = true ->
  plain_tail tail = true ->
  is_valid_mezzofy_url (s ++ py "://" ++ (host ++ py ":" ++ port ++ [d]) ++ tail) = false.
Proof.
  intros Hs Hhost Hport Ht.
  assert (Hd : Str.is_ascii_digit d = true).
  { rewrite forallb_app in Hport. apply andb_true_iff in Hport as [_ Hd].
    simpl in Hd. rewrite andb_true_r in Hd. exact Hd. }
  rewrite is_valid_plain_url; [|exact Hs| |exact Ht].
  - change (py "mezzofy.com") with (py "mezzofy.co" ++ [109%N]).
    rewrite !app_assoc. rewrite endswith_last_differs; [reflexivity|].
    unfold Str.is_ascii_digit in Hd. apply andb_true_iff in Hd as [_ Hle].
    apply N.leb_le in Hle. lia.
  - rewrite plain_netloc_app, (plain_netloc_app (py ":")), Hhost,
      (plain_netloc_digits _ Hport). reflexivity.
Qed.

End PlainUrls.

Lemma is_valid_plain_url_witness :
  is_valid_mezzofy_url (lib := Fixture.lib) (py "HTTPS://shop.notmezzofy.com/deals?x=1")
  = true.
Proof.
  exact (eq_trans
           (is_valid_plain_url (lib := Fixture.lib) (py "HTTPS")
              (py "shop.notmezzofy.com") (py "/deals?x=1") eq_refl eq_refl eq_refl)
           eq_refl).
Defined.

Lemma is_valid_rejects_port_witness :
  is_valid_mezzofy_url (lib := Fixture.lib) (py "https://www.mezzofy.com:8443/api") = false.
Proof.
  exact (is_valid_rejects_port (lib := Fixture.lib) (py "https") (py "www.mezzofy.com")
           (py "844") (py "/api") 51%N eq_refl eq_refl eq_refl eq_refl).
Defined.

(** ** [list_pages] and [norm] *)

Section PagesFacts.
Context {store : DocStore}.

Lemma isoformat_values_lookup (d : gmap str Value) (k : str) :
  isoformat_values d !! k
  = (fun v => if has_isoformat v then value_of_str (isoformat v) else v) <$> d !! k.
Proof. unfold isoformat_values. apply lookup_fmap. Qed.

Lemma isoformat_values_clean (d : gmap str Value) (k : str) (v : Value) :
  isoformat_values d !! k = Some v -> has_isoformat v = false.
Proof.
  rewrite isoformat_values_lookup. destruct (d !! k) as [v0|]; [|discriminate].
  simpl. destruct (has_isoformat v0) eqn:Hiso; intros [= <-];
    [apply str_has_no_isoformat | exact Hiso].
Qed.

Lemma py_id_neq : py "id" <> py "_id".
Proof. discriminate. Qed.

(** X20: a normalised record never has an [_id] field; when the document
    had one, the record's [id] is [str] of it, replacing any [id] the
    document had; when it had none, [id] is left as it was. *)
Theorem norm_id_field (d : gmap str Value) :
  norm d !! py "_id" = None
  /\ (forall v, d !! py "_id" = Some v ->
        norm d !! py "id" = Some (value_of_str (py_str v)))
  /\ (d !! py "_id" = None ->
        norm d !! py "id"
        = (fun v => if has_isoformat v then value_of_str (isoformat v) else v)
            <$> d !! py "id").
Proof.
  unfold norm. split; [|split].
  - rewrite isoformat_values_lookup.
    destruct (d !! py "_id") as [v|] eqn:Hid.
    + rewrite lookup_insert_ne by apply py_id_neq. rewrite lookup_delete_eq. reflexivity.
    + rewrite Hid. reflexivity.
  - intros v ->. rewrite isoformat_values_lookup, lookup_insert_eq. simpl.
    rewrite str_has_no_isoformat. reflexivity.
  - intros ->. apply isoformat_values_lookup.
Qed.

(** X21: every field other than [_id] and [id] is kept under its name; its
    value is replaced by its [isoformat()] text when it has that method and
    is left alone otherwise. *)
Theorem norm_other_fields (d : gmap str Value) (k : str) :
  k <> py "_id" -> k <> py "id" ->
  norm d !! k
  = (fun v => if has_isoformat v then value_of_str (isoformat v) else v) <$> d !! k.
Proof.
  intros Hk1 Hk2. unfold norm. rewrite isoformat_values_lookup.
  destruct (d !! py "_id"); [|reflexivity].
  rewrite lookup_insert_ne by congruence. rewrite lookup_delete_ne by congruence.
  reflexivity.
Qed.

Lemma norm_clean (d : gmap str Value) (k : str) (v : Value) :
  norm d !! k = Some v -> has_isoformat v = false.
Proof. unfold norm. apply isoformat_values_clean. Qed.

(** X22: no value of a normalised record has an [isoformat] method left,
    and normalising a normalised record changes nothing. *)
Theorem norm_idempotent (d : gmap str Value) :
  (forall k v, norm d !! k = Some v -> has_isoformat v = false)
  /\ norm (norm d) = norm d.
Proof.
  split; [apply norm_clean|].
  destruct (norm_id_field d) as (Hno & _).
  unfold norm at 1. rewrite Hno. apply map_eq. intros k.
  rewrite isoformat_values_lookup.
  destruct (norm d !! k) as [v|] eqn:Hk; [|reflexivity].
  simpl. rewrite (norm_clean d k v Hk). reflexivity.
Qed.

(** X23: [list_pages] answers with the empty list when the store raises;
    otherwise with one record per document the store returned; and no record
    it answers with has an [_id] field or a value with an [isoformat]
    method. *)
Theorem list_pages_records (q : option str) (limit : Z) :
  (get_documents (py "page") (list_pages_filter q) limit = None ->
   list_pages q limit = [])
  /\ (forall docs,
        get_documents (py "page") (list_pages_filter q) limit = Some docs ->
        length (list_pages q limit) = length docs)
  /\ Forall (fun r : gmap str Value =>
               r !! py "_id" = None
               /\ forall k v, r !! k = Some v -> has_isoformat v = false)
            (list_pages q limit).
Proof.
  unfold list_pages. split; [|split].
  - intros ->. reflexivity.
  - intros docs ->. apply length_map.
  - destruct (get_documents _ _ _) as [docs|]; [|constructor].
    apply List.Forall_forall. intros r Hr.
    apply in_map_iff in Hr as (d & <- & _).
    split; [apply norm_id_field | apply norm_clean].
Qed.

(** X24: a missing or empty [q] asks the store for every page; any other
    [q] asks for the pages in which one of the four text fields matches [q]
    as a regular expression, case-insensitively. *)
Theorem list_pages_filter_cases (q : option str) :
  (list_pages_filter q = FilterAll <-> q = None \/ q = Some [])
  /\ (forall q', q = Some q' -> q' <> [] ->
        exists clauses,
          list_pages_filter q = FilterOr clauses
          /\ List.map fst clauses
             = [py "title"; py "description"; py "snippet"; py "keywords_matched"]
          /\ Forall (fun cl => snd cl = (q', py "i")) clauses).
Proof.
  split.
  - destruct q as [[|c q']|]; simpl; split; auto; try discriminate.
    intros [? | ?]; discriminate.
  - intros q' -> Hne. destruct q' as [|c q']; [contradiction|].
    eexists. split; [reflexivity|]. split; [reflexivity|].
    repeat constructor.
Qed.

End PagesFacts.

Lemma norm_other_fields_witness :
  norm (store := StoreFixture.store) StoreFixture.stored_doc !! py "created_at"
  = Some (StoreFixture.VStr (py "2024-01-01T00:00:00")).
Proof.
  refine (eq_trans
            (norm_other_fields (store := StoreFixture.store) StoreFixture.stored_doc
               (py "created_at") _ _) _);
    [discriminate | discriminate | reflexivity].
Defined.

Lemma norm_id_field_witness :
  norm (store := StoreFixture.store) StoreFixture.stored_doc !! py "id"
  = Some (StoreFixture.VStr (py "65a1")).
Proof.
  exact (proj1 (proj2 (norm_id_field (store := StoreFixture.store)
                         StoreFixture.stored_doc))
           (StoreFixture.VObjectId (py "65a1")) eq_refl).
Defined.

Lemma list_pages_records_witness :
  list_pages (store := StoreFixture.down) None 50 = []
  /\ length (list_pages (store := StoreFixture.store) (Some (py "pricing")) 50) = 1%nat.
Proof.
  split.
  - apply (proj1 (list_pages_records (store := StoreFixture.down) None 50)).
    reflexivity.
  - apply (proj1 (proj2 (list_pages_records (store := StoreFixture.store)
                           (Some (py "pricing")) 50)) [StoreFixture.stored_doc]).
    reflexivity.
Defined.

(** ** The 400 answer, and runs of link discovery on the test beds *)

Section RejectFacts.
Context {lib : PyLib} {net : Net}.

(** X25: the only [HTTPException] the call raises is the 400, it is
    raised exactly for the start URLs the validator rejects, and by then
    nothing has been fetched or stored. *)
Theorem crawl_rejects_exactly (req : CrawlRequest) (w : World) :
  (is_valid_mezzofy_url (effective_start_url req) = false ->
   crawl req w = Some (HTTPException 400 (py "start_url must be mezzofy.com"), w, []))
  /\ (forall code detail w' tr,
        crawl req w = Some (HTTPException code detail, w', tr) ->
        is_valid_mezzofy_url (effective_start_url req) = false
        /\ code = 400 /\ w' = w /\ tr = []).
Proof.
  split.
  - intros Hv. unfold crawl, crawl_with. rewrite Hv. reflexivity.
  - intros code detail w' tr Hr.
    apply crawl_result in Hr as [(Hv & [= -> _] & -> & ->) | (_ & c & st & _ & _ & _ & Hc)].
    + auto.
    + destruct c; [destruct Hc as [? _]|]; discriminate.
Qed.

End RejectFacts.

Lemma crawl_rejects_exactly_witness :
  @crawl Fixture.lib Fixture.net (mkCrawlRequest (Some (py "https://evil.com")) 20) tt
  = Some (HTTPException 400 (py "start_url must be mezzofy.com"), tt, []).
Proof.
  apply (proj1 (@crawl_rejects_exactly Fixture.lib Fixture.net
                  (mkCrawlRequest (Some (py "https://evil.com")) 20) tt)).
  vm_compute. reflexivity.
Defined.

Lemma discover_links_appends_witness :
  exists added,
    [py "https://www.mezzofy.com/queued"; py "https://www.mezzofy.com/features"]
    = [py "https://www.mezzofy.com/queued"] ++ added
    /\ NoDup added.
Proof.
  assert (Hrun :
    @discover_links Fixture.lib BASE_DOMAIN (soup_anchors Fixture.seed_soup)
      ({[BASE_DOMAIN]} : gset str) [py "https://www.mezzofy.com/queued"]
    = (Normal,
       [py "https://www.mezzofy.com/queued"; py "https://www.mezzofy.com/features"]))
    by (vm_compute; reflexivity).
  destruct (@discover_links_appends Fixture.lib _ _ _ _ _ _ Hrun)
    as (added & Hq & Hnd & _).
  exists added. split; [exact Hq | exact Hnd].
Defined.

Lemma discover_links_complete_witness :
  py "https://www.mezzofy.com/features" ∈ ({[BASE_DOMAIN]} : gset str)
  \/ py "https://www.mezzofy.com/features" ∈ [py "https://www.mezzofy.com/features"].
Proof.
  assert (Hrun :
    @discover_links Fixture.lib BASE_DOMAIN (soup_anchors Fixture.seed_soup)
      ({[BASE_DOMAIN]} : gset str) []
    = (Normal, [py "https://www.mezzofy.com/features"]))
    by (vm_compute; reflexivity).
  apply (@discover_links_complete Fixture.lib _ _ _ _ _ Hrun
           (py "https://www.mezzofy.com/features")
           (py "https://www.mezzofy.com/features")).
  - left.
  - reflexivity.
  - reflexivity.
  - vm_compute. reflexivity.
Defined.

Lemma discover_links_raises_witness :
  (@discover_links BrittleFixture.lib BASE_DOMAIN
     (soup_anchors BrittleFixture.bad_soup) (∅ : gset str) []).1 = Raised.
Proof.
  apply (@discover_links_raises BrittleFixture.lib BASE_DOMAIN
           (soup_anchors BrittleFixture.bad_soup) (∅ : gset str) [] (py "//[")).
  - right. left.
  - reflexivity.
  - reflexivity.
Defined.

(** ** Two fetched URLs, one [HttpUrl] text

    The root of the site is fetched as [https://www.mezzofy.com] and, through
    its own link, as [https://www.mezzofy.com/]; both pages match a keyword
    and both records reach the store with the same [url]. *)
Example crawl_stores_same_text :
  exists pg1 pg2,
    @crawl SlashFixture.lib SlashFixture.net (mkCrawlRequest None 5) tt
    = Some (Return 2 2, tt,
            [EvFetch BASE_DOMAIN; EvStore pg1 true;
             EvFetch (BASE_DOMAIN ++ py "/"); EvStore pg2 true])
    /\ page_url pg1 = page_url pg2.
Proof. eexists _, _. split; vm_compute; reflexivity. Qed.
